(** * goreddit: the listing / comment-tree decoder

    A shallow embedding of the decoding path of the [api] package:
    [FloatTime.UnmarshalJSON], the listing intermediaries, [DecodeReplies]
    and the assembly performed by [RequestPostJSON].

    Go values are modelled as follows.
    - [string] and [[]byte] are [String.string] (a sequence of 8-bit bytes);
      a nil and an empty slice of bytes are not told apart, the code only
      ever takes their length or converts them to a string.
    - [int], [int64] are [Z] with the 64-bit wrap-around written out.
    - [float64] is [spec_float] at precision 53, emax 1024.
    - [*CommentResponse] is an address into an explicit heap of comment
      records; [json.Unmarshal] and the [for ... range] variables allocate
      in it.
    - The standard library ([strconv], [time], [encoding/json]) is modelled
      after its documented behaviour, as far as the types of this package
      exercise it.

    The second part of the model covers the path that [RequestPostJSON]
    requests, the two orders on comments ([CommentsByScore],
    [CommentsByScoreDescending]), the error hook of the [bot] package
    ([SendErrors], [Fire]) and [TokenExpiresIn.UnmarshalJSON]. *)

From Stdlib Require Import ZArith String Ascii List Bool Lia SpecFloat.
From Stdlib Require Import DecimalString DecimalPos.
From stdpp Require Import base list strings.
Import ListNotations.

Local Open Scope string_scope.
Local Open Scope Z_scope.

(** ** Bytes *)

Abbreviation byte := ascii (only parsing).
Abbreviation bytes := string (only parsing).

Definition code (c : byte) : Z := Z.of_N (N_of_ascii c).

Definition in_range (lo hi c : byte) : bool :=
  (code lo <=? code c) && (code c <=? code hi).

Definition is_digit (c : byte) : bool := in_range "0" "9" c.

Definition digit_val (c : byte) : Z := code c - code "0"%char.

(** The double quote and the backslash, written by code point. *)
Definition dquote : byte := "034"%char.
Definition bslash : byte := "092"%char.

(** [int64(x)] for an integer [x]: reduction modulo 2^64 into the signed range. *)
Definition wrap64 (z : Z) : Z := (z + 2 ^ 63) mod 2 ^ 64 - 2 ^ 63.

Definition min_int64 : Z := - 2 ^ 63.
Definition max_int64 : Z := 2 ^ 63 - 1.

(** ** strconv *)

Module strconv.

Inductive ErrKind := ErrSyntax | ErrRange.

(** [*strconv.NumError] *)
Record NumError := mkNumError { Func : string; Num : string; Err : ErrKind }.

Definition syntaxError (fn str : string) : NumError := mkNumError fn str ErrSyntax.
Definition rangeError (fn str : string) : NumError := mkNumError fn str ErrRange.

Definition mem_string (s : string) (l : list string) : bool :=
  existsb (String.eqb s) l.

(** [strconv.ParseBool]: a switch over twelve spellings. *)
Definition ParseBool (str : string) : bool + NumError :=
  if mem_string str ["1"; "t"; "T"; "true"; "TRUE"; "True"] then inl true
  else if mem_string str ["0"; "f"; "F"; "false"; "FALSE"; "False"] then inl false
  else inr (syntaxError "ParseBool" str).

(** *** ParseInt, base 10, 64 bits *)

(** The digits of [ParseUint] in base 10: every byte must be a decimal digit
    (underscores are only legal with base 0). The value is accumulated
    exactly; the caller compares it with the cutoffs. *)
Fixpoint read_uint (s : string) (acc : Z) : option Z :=
  match s with
  | EmptyString => Some acc
  | String c s' => if is_digit c then read_uint s' (acc * 10 + digit_val c) else None
  end.

Definition ParseInt10 (s : string) : Z + NumError :=
  match s with
  | EmptyString => inr (syntaxError "ParseInt" s)
  | String c s' =>
      let '(neg, digits) :=
        if Ascii.eqb c "+" then (false, s')
        else if Ascii.eqb c "-" then (true, s')
        else (false, s) in
      match digits with
      | EmptyString => inr (syntaxError "ParseInt" s)
      | _ =>
          match read_uint digits 0 with
          | None => inr (syntaxError "ParseInt" s)
          | Some un =>
              if negb neg && (2 ^ 63 <=? un) then inr (rangeError "ParseInt" s)
              else if neg && (2 ^ 63 <? un) then inr (rangeError "ParseInt" s)
              else inl (if neg then - un else un)
          end
      end
  end.

(** *** ParseFloat, 64 bits *)

Definition float64 := spec_float.

(** [lower(c)] is [c | ('x' - 'X')]. *)
Definition lower (c : byte) : byte :=
  ascii_of_N (N.lor (N_of_ascii c) 32).

Definition to_lower_AZ (c : byte) : byte :=
  if in_range "A" "Z" c then ascii_of_N (N_of_ascii c + 32) else c.

Fixpoint commonPrefixLenIgnoreCase (s pre : string) : nat :=
  match s, pre with
  | String c s', String p pre' =>
      if Ascii.eqb (to_lower_AZ c) p then S (commonPrefixLenIgnoreCase s' pre') else O
  | _, _ => O
  end.

(** [special]: the value and the number of bytes consumed. *)
Definition special (s : string) : option (float64 * nat) :=
  match s with
  | EmptyString => None
  | String c s' =>
      let inf (sign : bool) (nsign : nat) (t : string) :=
        let n := commonPrefixLenIgnoreCase t "infinity" in
        let n := if (3 <? n)%nat && (n <? 8)%nat then 3%nat else n in
        if (n =? 3)%nat || (n =? 8)%nat then Some (S754_infinity sign, (nsign + n)%nat)
        else None in
      if Ascii.eqb c "+" then inf false 1%nat s'
      else if Ascii.eqb c "-" then inf true 1%nat s'
      else if Ascii.eqb c "i" || Ascii.eqb c "I" then inf false 0%nat s
      else if Ascii.eqb c "n" || Ascii.eqb c "N" then
        if (commonPrefixLenIgnoreCase s "nan" =? 3)%nat then Some (S754_nan, 3%nat) else None
      else None
  end.

Definition is_hex_letter (c : byte) : bool := in_range "a" "f" (lower c).

Definition hex_val (c : byte) : Z :=
  if is_digit c then digit_val c else code (lower c) - code "a"%char + 10.

(** State of the mantissa loop of [readFloat]. The digits are accumulated
    exactly: the 19-digit cut of the fast path only selects between
    algorithms that all return the correctly rounded value. *)
Record mant := mkMant {
  m_val : Z;           (* all digits read, as an integer in the base *)
  m_sawdot : bool;
  m_sawdigits : bool;
  m_frac : Z;          (* digits read after the point *)
  m_underscores : bool
}.

Fixpoint read_mantissa (hex : bool) (s : string) (st : mant) : mant * string :=
  match s with
  | EmptyString => (st, s)
  | String c s' =>
      let push (d : Z) :=
        mkMant (m_val st * (if hex then 16 else 10) + d) (m_sawdot st) true
               (if m_sawdot st then m_frac st + 1 else m_frac st) (m_underscores st) in
      if Ascii.eqb c "_" then
        read_mantissa hex s' (mkMant (m_val st) (m_sawdot st) (m_sawdigits st) (m_frac st) true)
      else if Ascii.eqb c "." then
        if m_sawdot st then (st, s)
        else read_mantissa hex s' (mkMant (m_val st) true (m_sawdigits st) (m_frac st) (m_underscores st))
      else if is_digit c then read_mantissa hex s' (push (digit_val c))
      else if hex && is_hex_letter c then read_mantissa hex s' (push (hex_val c))
      else (st, s)
  end.

(** The digits of the exponent; the accumulator stops growing once it has
    reached 10000. Returns the exponent, whether an underscore was seen,
    and the rest. *)
Fixpoint read_exp_digits (s : string) (e : Z) (us : bool) : Z * bool * string :=
  match s with
  | EmptyString => (e, us, s)
  | String c s' =>
      if Ascii.eqb c "_" then read_exp_digits s' e true
      else if is_digit c then
        read_exp_digits s' (if e <? 10000 then e * 10 + digit_val c else e) us
      else (e, us, s)
  end.

(** [underscoreOK], on the string after the optional sign. *)
Inductive saw := SawStart | SawDigit | SawUnderscore | SawOther.

Fixpoint underscore_loop (hex : bool) (s : string) (sw : saw) : bool :=
  match s with
  | EmptyString => match sw with SawUnderscore => false | _ => true end
  | String c s' =>
      if is_digit c || (hex && is_hex_letter c) then underscore_loop hex s' SawDigit
      else if Ascii.eqb c "_" then
        match sw with
        | SawDigit => underscore_loop hex s' SawUnderscore
        | _ => false
        end
      else
        match sw with
        | SawUnderscore => false
        | _ => underscore_loop hex s' SawOther
        end
  end.

Definition strip_sign (s : string) : bool * string :=
  match s with
  | String c s' =>
      if Ascii.eqb c "+" then (false, s')
      else if Ascii.eqb c "-" then (true, s')
      else (false, s)
  | EmptyString => (false, s)
  end.

Definition underscoreOK (s : string) : bool :=
  let s := snd (strip_sign s) in
  match s with
  | String c0 (String c1 s') =>
      if Ascii.eqb c0 "0" &&
         (Ascii.eqb (lower c1) "b" || Ascii.eqb (lower c1) "o" || Ascii.eqb (lower c1) "x")
      then underscore_loop (Ascii.eqb (lower c1) "x") s' SawDigit
      else underscore_loop false s SawStart
  | _ => underscore_loop false s SawStart
  end.

(** What [readFloat] hands over: sign, integer mantissa, base of the
    exponent (2 for a hexadecimal literal, 10 otherwise) and exponent, so
    that the number read is [± mantissa * base ^ exponent]. *)
Record parsed_float := mkParsed {
  pf_neg : bool; pf_mant : Z; pf_hex : bool; pf_exp : Z; pf_rest : string; pf_underscores : bool
}.

Definition readFloat (s : string) : option parsed_float :=
  match s with
  | EmptyString => None
  | _ =>
      let '(neg, s1) := strip_sign s in
      let '(hex, s2) :=
        match s1 with
        | String c0 (String c1 (String c2 t)) =>
            if Ascii.eqb c0 "0" && Ascii.eqb (lower c1) "x" then (true, String c2 t)
            else (false, s1)
        | _ => (false, s1)
        end in
      let '(st, s3) := read_mantissa hex s2 (mkMant 0 false false 0 false) in
      if negb (m_sawdigits st) then None
      else
        let frac := if hex then 4 * m_frac st else m_frac st in
        match s3 with
        | String c s4 =>
            if Ascii.eqb (lower c) (if hex then "p" else "e")%char then
              let '(esign, s5) := strip_sign s4 in
              match s5 with
              | String d _ =>
                  if is_digit d then
                    let '(e, us, s6) := read_exp_digits s5 0 (m_underscores st) in
                    Some (mkParsed neg (m_val st) hex ((if esign then - e else e) - frac) s6 us)
                  else None
              | EmptyString => None
              end
            else if hex then None
            else Some (mkParsed neg (m_val st) hex (- frac) s3 (m_underscores st))
        | EmptyString =>
            if hex then None
            else Some (mkParsed neg (m_val st) hex (- frac) s3 (m_underscores st))
        end
  end.

(** Round-to-nearest-even of the rational [n / d] (both positive) to
    binary64: the quotient is taken with at least 64 significant bits and the
    remainder gives the position of the exact value between two quotients. *)
Definition round_ratio (neg : bool) (n d : Z) : float64 :=
  let s := Z.max 0 (64 + Z.log2 d + 1 - (Z.log2 n + 1)) in
  let num := n * 2 ^ s in
  let q := num / d in
  let r := num mod d in
  let loc := if r =? 0 then loc_Exact else loc_Inexact (2 * r ?= d) in
  binary_round_aux 53 1024 neg q (- s) loc.

(** The binary64 nearest to [± m * base ^ e]. *)
Definition nearest_float64 (neg : bool) (m : Z) (hex : bool) (e : Z) : float64 :=
  if m =? 0 then S754_zero neg
  else if hex then round_ratio neg (m * 2 ^ (Z.max 0 e)) (2 ^ (Z.max 0 (- e)))
  else round_ratio neg (m * 10 ^ (Z.max 0 e)) (10 ^ (Z.max 0 (- e))).

(** [strconv.ParseFloat(s, 64)]. A value that rounds to an infinity is a
    range error; input left over after the number is a syntax error. *)
Definition ParseFloat (s : string) : float64 + NumError :=
  match special s with
  | Some (f, n) =>
      if (n =? String.length s)%nat then inl f else inr (syntaxError "ParseFloat" s)
  | None =>
      match readFloat s with
      | None => inr (syntaxError "ParseFloat" s)
      | Some p =>
          match pf_rest p with
          | EmptyString =>
              if pf_underscores p && negb (underscoreOK s) then inr (syntaxError "ParseFloat" s)
              else
                match nearest_float64 (pf_neg p) (pf_mant p) (pf_hex p) (pf_exp p) with
                | S754_infinity _ => inr (rangeError "ParseFloat" s)
                | f => inl f
                end
          | _ => inr (syntaxError "ParseFloat" s)
          end
      end
  end.

End strconv.

(** ** Conversion float64 -> int64 *)

(** [int64(f)]: the fraction is discarded. The Go specification leaves the
    result implementation-dependent when the value does not fit (or is a
    NaN); the value below is the one produced on amd64. *)
Definition int64_indefinite : Z := min_int64.

Definition int64_of_float64 (f : strconv.float64) : Z :=
  match f with
  | S754_zero _ => 0
  | S754_finite s m e =>
      let mag := if 0 <=? e then Z.pos m * 2 ^ e else Z.pos m / 2 ^ (- e) in
      let v := if s then - mag else mag in
      if (min_int64 <=? v) && (v <=? max_int64) then v else int64_indefinite
  | S754_infinity _ | S754_nan => int64_indefinite
  end.

(** ** time *)

Module time.

(** [*time.Location]: the nil pointer (UTC) of the zero [Time], and
    [&localLoc], which [time.Unix] installs. *)
Inductive Location := LocNil | Local.

(** [time.Time]: wall and ext as in the runtime (no monotonic reading). *)
Record Time := mkTime { wall : Z; ext : Z; loc : Location }.

Definition zero : Time := mkTime 0 0 LocNil.

Definition unixToInternal : Z := (1969 * 365 + 1969 / 4 - 1969 / 100 + 1969 / 400) * 86400.

(** [time.Unix(sec, 0)] *)
Definition Unix (sec : Z) : Time := mkTime 0 (wrap64 (sec + unixToInternal)) Local.

(** [t.Unix()] *)
Definition to_unix (t : Time) : Z := wrap64 (ext t - unixToInternal).

(** [t.IsZero()] *)
Definition IsZero (t : Time) : bool := (ext t =? 0) && (wall t =? 0).

End time.

(** ** Errors

    The values of Go's [error] interface that reach this package. *)

Inductive SyntaxMsg :=
| UnexpectedEnd                 (* unexpected end of JSON input *)
| InvalidCharacter (c : byte)   (* invalid character c ... *)
| ExceededMaxDepth.

Inductive error :=
| FailedToParseFloat (e : strconv.NumError)
    (* errors.New of the text: failed to parse float, followed by err *)
| SyntaxError (msg : SyntaxMsg)               (* *json.SyntaxError *)
| UnmarshalTypeError (value : string) (type : string) (* *json.UnmarshalTypeError *)
| io_EOF
| io_ErrUnexpectedEOF
| TransportError (msg : string).              (* whatever api.Get failed with *)

(** ** FloatTime *)

Definition FloatTime := time.Time.

(** [func (ft *FloatTime) UnmarshalJSON(data []byte) error]: the receiver's
    value before the call goes in, its value after the call and the
    returned error come out. *)
Definition UnmarshalJSON (ft : FloatTime) (data : bytes) : FloatTime * option error :=
  match strconv.ParseBool data with
  | inl _ => (ft, None)
  | inr _ =>
      match strconv.ParseFloat data with
      | inr err => (ft, Some (FailedToParseFloat err))
      | inl ts =>
          let int_ts := int64_of_float64 ts in
          let t := time.Unix int_ts in
          (t, None)
      end
  end.

(** ** encoding/json: the scanner *)

Module json.

(** Nesting allowed by the scanner. *)
Definition maxNestingDepth : Z := 10000.

Definition isSpace (c : byte) : bool :=
  Ascii.eqb c " " || Ascii.eqb c "009" || Ascii.eqb c "013" || Ascii.eqb c "010".

Fixpoint skip_space (s : bytes) : bytes :=
  match s with
  | String c s' => if isSpace c then skip_space s' else s
  | EmptyString => s
  end.

(** The first [n] bytes of [s]. *)
Fixpoint take_bytes (n : nat) (s : bytes) : bytes :=
  match n, s with
  | S n', String c s' => String c (take_bytes n' s')
  | _, _ => EmptyString
  end.

(** The bytes of [s] in front of its suffix [rest]: [s[:len(s)-len(rest)]]. *)
Definition consumed (s rest : bytes) : bytes :=
  take_bytes (String.length s - String.length rest) s.

(** A JSON text, cut into values. Literals keep their bytes as they stand in
    the input, and every element and member carries the bytes it was read
    from: this is what an [Unmarshaler] is handed. *)
#[local] Set Warnings "-register-all".
Inductive Value :=
| Null
| Bool (b : bool)
| Number (lit : bytes)
| Str (lit : bytes)
| Array (elems : list (bytes * Value))
| Object (members : list (bytes * (bytes * Value))).
#[local] Set Warnings "+register-all".

Inductive pres (A : Type) :=
| POk (a : A)
| PErr (e : error)
| PFuel.
Arguments POk {A} a.
Arguments PErr {A} e.
Arguments PFuel {A}.

Definition invalid (c : byte) : error := SyntaxError (InvalidCharacter c).
Definition unexpected_end : error := SyntaxError UnexpectedEnd.

Definition is_hex (c : byte) : bool :=
  is_digit c || in_range "a" "f" c || in_range "A" "F" c.

(** [stateInString] and its escapes, from just after the opening quote;
    returns what follows the closing quote. *)
Fixpoint scan_string (s : bytes) : error + bytes :=
  match s with
  | EmptyString => inl unexpected_end
  | String c s' =>
      if Ascii.eqb c dquote then inr s'
      else if Ascii.eqb c bslash then
        match s' with
        | EmptyString => inl unexpected_end
        | String e s'' =>
            if Ascii.eqb e "b" || Ascii.eqb e "f" || Ascii.eqb e "n" || Ascii.eqb e "r"
               || Ascii.eqb e "t" || Ascii.eqb e bslash || Ascii.eqb e "/" || Ascii.eqb e dquote
            then scan_string s''
            else if Ascii.eqb e "u" then
              match s'' with
              | EmptyString => inl unexpected_end
              | String h1 t1 =>
                  if negb (is_hex h1) then inl (invalid h1) else
                  match t1 with
                  | EmptyString => inl unexpected_end
                  | String h2 t2 =>
                      if negb (is_hex h2) then inl (invalid h2) else
                      match t2 with
                      | EmptyString => inl unexpected_end
                      | String h3 t3 =>
                          if negb (is_hex h3) then inl (invalid h3) else
                          match t3 with
                          | EmptyString => inl unexpected_end
                          | String h4 t4 =>
                              if negb (is_hex h4) then inl (invalid h4) else scan_string t4
                          end
                      end
                  end
              end
            else inl (invalid e)
        end
      else if code c <? 32 then inl (invalid c)
      else scan_string s'
  end.

Fixpoint skip_digits (s : bytes) : bytes :=
  match s with
  | String c s' => if is_digit c then skip_digits s' else s
  | EmptyString => s
  end.

(** [stateE], [stateESign], [stateE0]: after the [e] of a number. *)
Definition scan_exp (s : bytes) : error + bytes :=
  let s1 :=
    match s with
    | String c s' => if Ascii.eqb c "+" || Ascii.eqb c "-" then s' else s
    | EmptyString => s
    end in
  match s1 with
  | String c s' => if is_digit c then inr (skip_digits s') else inl (invalid c)
  | EmptyString => inl unexpected_end
  end.

Definition is_e (c : byte) : bool := Ascii.eqb c "e" || Ascii.eqb c "E".

(** [state0]: after the integer part. *)
Definition scan_frac_exp (s : bytes) : error + bytes :=
  match s with
  | String c s' =>
      if Ascii.eqb c "." then
        match s' with
        | String d s'' =>
            if is_digit d then
              match skip_digits s'' with
              | String e r => if is_e e then scan_exp r else inr (String e r)
              | EmptyString => inr EmptyString
              end
            else inl (invalid d)
        | EmptyString => inl unexpected_end
        end
      else if is_e c then scan_exp s'
      else inr s
  | EmptyString => inr s
  end.

(** A number, from its first byte on ([-] or a digit). *)
Definition scan_number (s : bytes) : error + bytes :=
  let s1 :=
    match s with
    | String c s' => if Ascii.eqb c "-" then s' else s
    | EmptyString => s
    end in
  match s1 with
  | String c s' =>
      if Ascii.eqb c "0" then scan_frac_exp s'
      else if in_range "1" "9" c then scan_frac_exp (skip_digits s')
      else inl (invalid c)
  | EmptyString => inl unexpected_end
  end.

(** The rest of a literal name ([rue], [alse], [ull]). *)
Fixpoint expect (lit s : bytes) : error + bytes :=
  match lit with
  | EmptyString => inr s
  | String l lit' =>
      match s with
      | String c s' => if Ascii.eqb c l then expect lit' s' else inl (invalid c)
      | EmptyString => inl unexpected_end
      end
  end.

Definition lift_scan {A} (r : error + bytes) (f : bytes -> A) : pres (A * bytes) :=
  match r with
  | inl e => PErr e
  | inr rest => POk (f rest, rest)
  end.

(** One value from the front of [s] (no leading space) and what follows it.
    [depth] counts the arrays and objects that enclose the value. *)
Fixpoint value (fuel : nat) (depth : Z) (s : bytes) {struct fuel}
  : pres (Value * bytes) :=
  match fuel with
  | O => PFuel
  | S fuel' =>
      match s with
      | EmptyString => PErr unexpected_end
      | String c s' =>
          if Ascii.eqb c "{" then
            if maxNestingDepth <=? depth then PErr (SyntaxError ExceededMaxDepth)
            else
              match skip_space s' with
              | EmptyString => PErr unexpected_end
              | String c1 r1 =>
                  if Ascii.eqb c1 "}" then POk (Object [], r1)
                  else
                    match members fuel' (depth + 1) (String c1 r1) with
                    | POk (ms, r) => POk (Object ms, r)
                    | PErr e => PErr e
                    | PFuel => PFuel
                    end
              end
          else if Ascii.eqb c "[" then
            if maxNestingDepth <=? depth then PErr (SyntaxError ExceededMaxDepth)
            else
              match skip_space s' with
              | EmptyString => PErr unexpected_end
              | String c1 r1 =>
                  if Ascii.eqb c1 "]" then POk (Array [], r1)
                  else
                    match elements fuel' (depth + 1) (String c1 r1) with
                    | POk (es, r) => POk (Array es, r)
                    | PErr e => PErr e
                    | PFuel => PFuel
                    end
              end
          else if Ascii.eqb c dquote then
            lift_scan (scan_string s') (fun r => Str (consumed s r))
          else if Ascii.eqb c "-" || is_digit c then
            lift_scan (scan_number s) (fun r => Number (consumed s r))
          else if Ascii.eqb c "t" then lift_scan (expect "rue" s') (fun _ => Bool true)
          else if Ascii.eqb c "f" then lift_scan (expect "alse" s') (fun _ => Bool false)
          else if Ascii.eqb c "n" then lift_scan (expect "ull" s') (fun _ => Null)
          else PErr (invalid c)
      end
  end

(** The elements of an array, from the first byte of an element on. *)
with elements (fuel : nat) (depth : Z) (s : bytes) {struct fuel}
  : pres (list (bytes * Value) * bytes) :=
  match fuel with
  | O => PFuel
  | S fuel' =>
      match value fuel' depth s with
      | POk (v, r) =>
          let raw := consumed s r in
          match skip_space r with
          | EmptyString => PErr unexpected_end
          | String c r' =>
              if Ascii.eqb c "," then
                match elements fuel' depth (skip_space r') with
                | POk (es, r'') => POk ((raw, v) :: es, r'')
                | PErr e => PErr e
                | PFuel => PFuel
                end
              else if Ascii.eqb c "]" then POk ([(raw, v)], r')
              else PErr (invalid c)
          end
      | PErr e => PErr e
      | PFuel => PFuel
      end
  end

(** The members of an object, from the first byte of a key on. *)
with members (fuel : nat) (depth : Z) (s : bytes) {struct fuel}
  : pres (list (bytes * (bytes * Value)) * bytes) :=
  match fuel with
  | O => PFuel
  | S fuel' =>
      match s with
      | EmptyString => PErr unexpected_end
      | String q s' =>
          if negb (Ascii.eqb q dquote) then PErr (invalid q)
          else
            match scan_string s' with
            | inl e => PErr e
            | inr r0 =>
                let key := consumed s r0 in
                match skip_space r0 with
                | EmptyString => PErr unexpected_end
                | String c r1 =>
                    if negb (Ascii.eqb c ":") then PErr (invalid c)
                    else
                      let sv := skip_space r1 in
                      match value fuel' depth sv with
                      | POk (v, r2) =>
                          let raw := consumed sv r2 in
                          match skip_space r2 with
                          | EmptyString => PErr unexpected_end
                          | String c2 r3 =>
                              if Ascii.eqb c2 "," then
                                match members fuel' depth (skip_space r3) with
                                | POk (ms, r4) => POk ((key, (raw, v)) :: ms, r4)
                                | PErr e => PErr e
                                | PFuel => PFuel
                                end
                              else if Ascii.eqb c2 "}" then POk ([(key, (raw, v))], r3)
                              else PErr (invalid c2)
                          end
                      | PErr e => PErr e
                      | PFuel => PFuel
                      end
                end
            end
      end
  end.

(** Fuel that the scanner cannot exhaust on [s]. *)
Definition scan_fuel (s : bytes) : nat := 2 * String.length s + 2.

(** The first value of a text: leading space skipped, then one value read;
    the bytes of the value, the value, and the bytes after it. *)
Definition first_value (data : bytes) : pres (bytes * Value * bytes) :=
  let s := skip_space data in
  match value (scan_fuel s) 0 s with
  | POk (v, r) => POk (consumed s r, v, r)
  | PErr e => PErr e
  | PFuel => PFuel
  end.

(** [checkValid]: the whole of [data] is one value, space around it allowed. *)
Definition checkValid (data : bytes) : pres (bytes * Value) :=
  match first_value data with
  | POk (raw, v, r) =>
      match skip_space r with
      | EmptyString => POk (raw, v)
      | String c _ => PErr (invalid c)
      end
  | PErr e => PErr e
  | PFuel => PFuel
  end.

(** *** Strings *)

Definition is_cont (c : byte) : bool := in_range "128" "191" c.

(** Width of the UTF-8 sequence at the head of [s]; 0 when it is not a valid
    encoding ([utf8.DecodeRune] then yields [RuneError] and width 1). *)
Definition utf8_width (s : bytes) : nat :=
  match s with
  | EmptyString => O
  | String c0 t =>
      let b0 := code c0 in
      let second (lo hi : Z) (n : nat) : nat :=
        match t with
        | String c1 t1 =>
            if (lo <=? code c1) && (code c1 <=? hi) then
              match n, t1 with
              | 2%nat, _ => 2%nat
              | 3%nat, String c2 _ => if is_cont c2 then 3%nat else O
              | 4%nat, String c2 (String c3 _) =>
                  if is_cont c2 && is_cont c3 then 4%nat else O
              | _, _ => O
              end
            else O
        | EmptyString => O
        end in
      if b0 <? 128 then 1%nat
      else if (194 <=? b0) && (b0 <=? 223) then second 128 191 2%nat
      else if b0 =? 224 then second 160 191 3%nat
      else if ((225 <=? b0) && (b0 <=? 236)) || (b0 =? 238) || (b0 =? 239) then second 128 191 3%nat
      else if b0 =? 237 then second 128 159 3%nat
      else if b0 =? 240 then second 144 191 4%nat
      else if (241 <=? b0) && (b0 <=? 243) then second 128 191 4%nat
      else if b0 =? 244 then second 128 143 4%nat
      else O
  end.

Definition byte_of (z : Z) : byte := ascii_of_N (Z.to_N z).

Definition replacement : bytes :=
  String (byte_of 239) (String (byte_of 191) (String (byte_of 189) EmptyString)).

(** [utf8.EncodeRune] *)
Definition encode_rune (r : Z) : bytes :=
  if r <? 128 then String (byte_of r) EmptyString
  else if r <? 2048 then
    String (byte_of (192 + r / 64)) (String (byte_of (128 + r mod 64)) EmptyString)
  else if ((55296 <=? r) && (r <=? 57343)) || (1114111 <? r) then replacement
  else if r <? 65536 then
    String (byte_of (224 + r / 4096))
      (String (byte_of (128 + (r / 64) mod 64)) (String (byte_of (128 + r mod 64)) EmptyString))
  else
    String (byte_of (240 + r / 262144))
      (String (byte_of (128 + (r / 4096) mod 64))
         (String (byte_of (128 + (r / 64) mod 64)) (String (byte_of (128 + r mod 64)) EmptyString))).

Definition hexdigit (c : byte) : Z :=
  if is_digit c then digit_val c
  else if in_range "a" "f" c then code c - code "a"%char + 10
  else code c - code "A"%char + 10.

(** [getu4]: the rune of a [\uXXXX] at the head of [s], or -1. *)
Definition getu4 (s : bytes) : Z :=
  match s with
  | String b (String u (String h1 (String h2 (String h3 (String h4 _))))) =>
      if Ascii.eqb b bslash && Ascii.eqb u "u"
         && is_hex h1 && is_hex h2 && is_hex h3 && is_hex h4
      then ((hexdigit h1 * 16 + hexdigit h2) * 16 + hexdigit h3) * 16 + hexdigit h4
      else -1
  | _ => -1
  end.

Fixpoint drop_bytes (n : nat) (s : bytes) : bytes :=
  match n, s with
  | S n', String _ s' => drop_bytes n' s'
  | _, _ => s
  end.

(** The body of [unquoteBytes], on the bytes between the quotes. Every step
    drops at least one byte, [fuel] is the number of bytes. The scanner has
    accepted the literal, so an escape is one of the legal ones. *)
Fixpoint unquote_body (fuel : nat) (s : bytes) : bytes :=
  match fuel, s with
  | S fuel', String c s' =>
      if Ascii.eqb c bslash then
        match s' with
        | EmptyString => EmptyString
        | String e s'' =>
            if Ascii.eqb e "u" then
              let rr := getu4 s in
              let after := drop_bytes 6 s in
              if (55296 <=? rr) && (rr <? 57344) then
                let rr1 := getu4 after in
                if (rr <? 56320) && (56320 <=? rr1) && (rr1 <? 57344) then
                  encode_rune ((rr - 55296) * 1024 + (rr1 - 56320) + 65536)
                    ++ unquote_body fuel' (drop_bytes 6 after)
                else replacement ++ unquote_body fuel' after
              else encode_rune rr ++ unquote_body fuel' after
            else
              let d :=
                if Ascii.eqb e "b" then byte_of 8
                else if Ascii.eqb e "f" then byte_of 12
                else if Ascii.eqb e "n" then byte_of 10
                else if Ascii.eqb e "r" then byte_of 13
                else if Ascii.eqb e "t" then byte_of 9
                else e in
              String d (unquote_body fuel' s'')
        end
      else if code c <? 128 then String c (unquote_body fuel' s')
      else
        match utf8_width s with
        | O => replacement ++ unquote_body fuel' s'
        | w => take_bytes w s ++ unquote_body fuel' (drop_bytes w s)
        end
  | _, _ => EmptyString
  end.

(** [unquote] of a string literal, quotes included. *)
Definition unquote (lit : bytes) : string :=
  let body := take_bytes (String.length lit - 2) (drop_bytes 1 lit) in
  unquote_body (String.length body) body.

(** *** Field lookup *)

(** [equalFoldRight]: [s] is a field name, [t] a key of the input. Letters
    match whatever their case; the Kelvin sign matches [k] and the long s
    matches [s]. *)
Fixpoint equalFold (s t : bytes) : bool :=
  match s with
  | EmptyString => match t with EmptyString => true | _ => false end
  | String sb s' =>
      match t with
      | EmptyString => false
      | String tb t' =>
          if code tb <? 128 then
            if Ascii.eqb sb tb then equalFold s' t'
            else
              let sbUpper := Z.land (code sb) 223 in
              if (code "A"%char <=? sbUpper) && (sbUpper <=? code "Z"%char)
                 && (sbUpper =? Z.land (code tb) 223)
              then equalFold s' t'
              else false
          else
            let sl := Z.land (code sb) 223 in
            if (sl =? code "S"%char) && (code tb =? 197) then
              match t' with
              | String t1 t'' => if code t1 =? 191 then equalFold s' t'' else false
              | EmptyString => false
              end
            else if (sl =? code "K"%char) && (code tb =? 226) then
              match t' with
              | String t1 (String t2 t'') =>
                  if (code t1 =? 132) && (code t2 =? 170) then equalFold s' t'' else false
              | _ => false
              end
            else false
      end
  end.

(** Position of the first element that satisfies [p]. *)
Fixpoint find_index {A} (p : A -> bool) (l : list A) : option nat :=
  match l with
  | [] => None
  | x :: l' => if p x then Some O else option_map S (find_index p l')
  end.

(** The field a key selects among the names of a struct, in declaration
    order: an exact match if there is one, else the first match up to case. *)
Definition find_field (names : list string) (key : bytes) : option nat :=
  match find_index (String.eqb key) names with
  | Some i => Some i
  | None => find_index (fun n => equalFold n key) names
  end.

Definition is_null (v : Value) : bool :=
  match v with
  | Null => true
  | _ => false
  end.

(** How [UnmarshalTypeError.Value] names a value. *)
Definition describe (v : Value) : string :=
  match v with
  | Null => "null"
  | Bool _ => "bool"
  | Number _ => "number"
  | Str _ => "string"
  | Array _ => "array"
  | Object _ => "object"
  end.

End json.

(** ** The response structures *)

(** The Go types of the fields that carry a [json] value of their own. *)
Inductive Kind := KString | KBool | KInt | KInt64 | KFloatTime.

Inductive FieldType :=
| Scalar (k : Kind)
| TRawMessage        (* json.RawMessage *)
| TCommentPtrs       (* []*CommentResponse *)
| TComments.         (* []CommentResponse *)

(** A field as [encoding/json] sees it: its Go name, the name it answers to
    in the input (the tag, or the Go name when there is none), its type. *)
Record Field := mkField { goName : string; jsonName : string; ftype : FieldType }.

(** The value of a scalar field. *)
Inductive fval :=
| VString (s : string)
| VBool (b : bool)
| VInt (z : Z)
| VTime (t : FloatTime).

Definition zero_of (k : Kind) : fval :=
  match k with
  | KString => VString ""
  | KBool => VBool false
  | KInt | KInt64 => VInt 0
  | KFloatTime => VTime time.zero
  end.

Definition zero_scalars (fields : list Field) : list fval :=
  flat_map (fun f => match ftype f with Scalar k => [zero_of k] | _ => [] end) fields.

(** [type CommentResponse struct], in declaration order. *)
Definition CommentResponse_fields : list Field := [
  mkField "Subreddit" "subreddit" (Scalar KString);
  mkField "Saved" "saved" (Scalar KBool);
  mkField "GildCount" "gilded" (Scalar KInt);
  mkField "Downvotes" "downs" (Scalar KInt64);
  mkField "Name" "name" (Scalar KString);
  mkField "SubredditType" "subreddit_type" (Scalar KString);
  mkField "Upvotes" "ups" (Scalar KInt64);
  mkField "AuthorName" "author_fullname" (Scalar KString);
  mkField "Score" "score" (Scalar KInt64);
  mkField "Edited" "edited" (Scalar KFloatTime);
  mkField "Archived" "archived" (Scalar KBool);
  mkField "Removed" "removed" (Scalar KBool);
  mkField "Spoiler" "spoiler" (Scalar KBool);
  mkField "Locked" "locked" (Scalar KBool);
  mkField "SubredditName" "subreddit_id" (Scalar KString);
  mkField "Author" "author" (Scalar KString);
  mkField "ContestMode" "contest_mode" (Scalar KBool);
  mkField "Approved" "approved" (Scalar KBool);
  mkField "Stickied" "stickied" (Scalar KBool);
  mkField "CreatedUTC" "created_utc" (Scalar KFloatTime);
  mkField "Body" "body" (Scalar KString);
  mkField "ParentID" "parent_id" (Scalar KString);
  mkField "RepliesListing" "replies" TRawMessage;
  mkField "Replies" "Replies" TCommentPtrs ].

(** [type PostResponse struct], in declaration order. *)
Definition PostResponse_fields : list Field := [
  mkField "Subreddit" "subreddit" (Scalar KString);
  mkField "Saved" "saved" (Scalar KBool);
  mkField "GildCount" "gilded" (Scalar KInt);
  mkField "Hidden" "hidden" (Scalar KBool);
  mkField "Downvotes" "downs" (Scalar KInt64);
  mkField "Name" "name" (Scalar KString);
  mkField "ID" "id" (Scalar KString);
  mkField "Quarantined" "quarantine" (Scalar KBool);
  mkField "SubredditType" "subreddit_type" (Scalar KString);
  mkField "Upvotes" "ups" (Scalar KInt64);
  mkField "AuthorName" "author_fullname" (Scalar KString);
  mkField "CommentCount" "num_comments" (Scalar KInt64);
  mkField "Score" "score" (Scalar KInt64);
  mkField "Edited" "edited" (Scalar KFloatTime);
  mkField "IsSelf" "is_self" (Scalar KBool);
  mkField "Archived" "archived" (Scalar KBool);
  mkField "NSFW" "over_18" (Scalar KBool);
  mkField "Removed" "removed" (Scalar KBool);
  mkField "Spoiler" "spoiler" (Scalar KBool);
  mkField "Locked" "locked" (Scalar KBool);
  mkField "SubredditName" "subreddit_id" (Scalar KString);
  mkField "Author" "author" (Scalar KString);
  mkField "ContestMode" "contest_mode" (Scalar KBool);
  mkField "Approved" "approved" (Scalar KBool);
  mkField "Stickied" "stickied" (Scalar KBool);
  mkField "URL" "url" (Scalar KString);
  mkField "CreatedUTC" "created_utc" (Scalar KFloatTime);
  mkField "Body" "selftext" (Scalar KString);
  mkField "Replies" "Replies" TComments ].

(** Pointers to comments: an address in the heap, or nil. *)
Abbreviation addr := nat (only parsing).
Abbreviation ptr := (option nat) (only parsing).

(** [CommentResponse]. The scalar fields are held by position, in the order
    of [CommentResponse_fields] (they come first in the struct). *)
Record CommentResponse := mkComment {
  scalars : list fval;
  RepliesListing : bytes;
  Replies : list ptr
}.

(** [PostResponse], scalars by position in [PostResponse_fields]. *)
Record PostResponse := mkPost {
  post_scalars : list fval;
  post_Replies : list CommentResponse
}.

Definition zero_CommentResponse : CommentResponse :=
  mkComment (zero_scalars CommentResponse_fields) "" [].

Definition zero_PostResponse : PostResponse :=
  mkPost (zero_scalars PostResponse_fields) [].

(** The scalar field with the given Go name. *)
Definition field_of (fields : list Field) (vals : list fval) (name : string) : option fval :=
  match json.find_index (fun f => String.eqb (goName f) name) fields with
  | Some i => vals !! i
  | None => None
  end.

Definition comment_field (c : CommentResponse) (name : string) : option fval :=
  field_of CommentResponse_fields (scalars c) name.

Definition post_field (p : PostResponse) (name : string) : option fval :=
  field_of PostResponse_fields (post_scalars p) name.

(** The listing intermediaries. [postListingIntermediary] and
    [commentListingIntermediary] (and their two inner structs) differ in the
    type of the innermost [Data] only. *)
Record Intermediary2 (T : Type) := mkI2 { Data2 : T }.
Record Intermediary1 (T : Type) := mkI1 { Children : list (Intermediary2 T) }.
Record ListingIntermediary (T : Type) := mkListing { Data : Intermediary1 T }.
Arguments mkI2 {T} _.
Arguments Data2 {T} _.
Arguments mkI1 {T} _.
Arguments Children {T} _.
Arguments mkListing {T} _.
Arguments Data {T} _.

Definition postListingIntermediary := ListingIntermediary PostResponse.
Definition commentListingIntermediary := ListingIntermediary CommentResponse.

(** The heap of comment records that pointers refer to. *)
Abbreviation heap := (list CommentResponse) (only parsing).

(** ** encoding/json: decoding into the structures *)

(** Decoding either stops at once with an error (an [Unmarshaler] failed), or
    goes on to the end; going on, it remembers the first type mismatch and
    collects the comment records it allocated. [base] is the address of the
    first record it may allocate. *)
Record dstate := mkD { d_fresh : list CommentResponse; d_saved : option error }.

Definition saveError (e : error) (st : dstate) : dstate :=
  match d_saved st with
  | Some _ => st
  | None => mkD (d_fresh st) (Some e)
  end.

Definition dres (A : Type) : Type := error + (A * dstate).

Fixpoint foldM {A S : Type} (f : A -> S -> error + S) (l : list A) (s : S) : error + S :=
  match l with
  | [] => inr s
  | a :: l' =>
      match f a s with
      | inl e => inl e
      | inr s' => foldM f l' s'
      end
  end.

(** A scalar field: the new value and the type mismatch to remember, or the
    error of [FloatTime.UnmarshalJSON]. [null] leaves a field as it is. *)
Definition decode_scalar (k : Kind) (raw : bytes) (v : json.Value) (old : fval)
  : error + (fval * option error) :=
  match k with
  | KFloatTime =>
      let ft := match old with VTime t => t | _ => time.zero end in
      match UnmarshalJSON ft raw with
      | (ft', None) => inr (VTime ft', None)
      | (_, Some e) => inl e
      end
  | KString =>
      match v with
      | json.Str lit => inr (VString (json.unquote lit), None)
      | json.Null => inr (old, None)
      | _ => inr (old, Some (UnmarshalTypeError (json.describe v) "string"))
      end
  | KBool =>
      match v with
      | json.Bool b => inr (VBool b, None)
      | json.Null => inr (old, None)
      | _ => inr (old, Some (UnmarshalTypeError (json.describe v) "bool"))
      end
  | KInt | KInt64 =>
      let ty := match k with KInt => "int" | _ => "int64" end in
      match v with
      | json.Number lit =>
          match strconv.ParseInt10 lit with
          | inl n => inr (VInt n, None)
          | inr _ => inr (old, Some (UnmarshalTypeError ("number " ++ lit) ty))
          end
      | json.Null => inr (old, None)
      | _ => inr (old, Some (UnmarshalTypeError (json.describe v) ty))
      end
  end.

Definition save_opt (e : option error) (st : dstate) : dstate :=
  match e with
  | Some e => saveError e st
  | None => st
  end.

(** Store a scalar member at position [i]. *)
Definition set_scalar (k : Kind) (i : nat) (raw : bytes) (v : json.Value)
    (vals : list fval) (st : dstate) : dres (list fval) :=
  match decode_scalar k raw v (default (zero_of k) (vals !! i)) with
  | inl e => inl e
  | inr (x, e) => inr (<[i := x]> vals, save_opt e st)
  end.

Definition names_of (fields : list Field) : list string := map jsonName fields.

(** A JSON value into a [CommentResponse]. An object sets the fields its
    members name, in the order of the input; [null] changes nothing;
    anything else is a type mismatch. A member for the untagged [Replies]
    goes into a slice of pointers to newly allocated records. *)
Fixpoint decode_CommentResponse (base : nat) (v : json.Value) (c : CommentResponse)
    (st : dstate) {struct v} : dres CommentResponse :=
  match v with
  | json.Null => inr (c, st)
  | json.Object ms =>
      foldM
        (fun (m : bytes * (bytes * json.Value)) (cs : CommentResponse * dstate) =>
           let '(key, (raw, v')) := m in
           let '(c, st) := cs in
           match json.find_field (names_of CommentResponse_fields) (json.unquote key) with
           | None => inr (c, st)
           | Some i =>
               match ftype <$> CommentResponse_fields !! i with
               | Some (Scalar k) =>
                   match set_scalar k i raw v' (scalars c) st with
                   | inl e => inl e
                   | inr (vals, st') => inr (mkComment vals (RepliesListing c) (Replies c), st')
                   end
               | Some TRawMessage => inr (mkComment (scalars c) raw (Replies c), st)
               | Some TCommentPtrs =>
                   match v' with
                   | json.Null => inr (mkComment (scalars c) (RepliesListing c) [], st)
                   | json.Array elems =>
                       match
                         foldM
                           (fun (el : bytes * json.Value) (ps : list ptr * dstate) =>
                              let '(_, ve) := el in
                              let '(ps, st) := ps in
                              if json.is_null ve then inr ((ps ++ [None])%list, st)
                              else
                                let a := (base + length (d_fresh st))%nat in
                                let st1 := mkD (d_fresh st ++ [zero_CommentResponse])%list (d_saved st) in
                                match decode_CommentResponse base ve zero_CommentResponse st1 with
                                | inl e => inl e
                                | inr (ce, st2) =>
                                    inr ((ps ++ [Some a])%list,
                                         mkD (<[(a - base)%nat := ce]> (d_fresh st2)) (d_saved st2))
                                end)
                           elems ([], st)
                       with
                       | inl e => inl e
                       | inr (ps, st') => inr (mkComment (scalars c) (RepliesListing c) ps, st')
                       end
                   | _ =>
                       inr (c, saveError (UnmarshalTypeError (json.describe v') "[]*CommentResponse") st)
                   end
               | _ => inr (c, st)
               end
           end)
        ms (c, st)
  | _ => inr (c, saveError (UnmarshalTypeError (json.describe v) "CommentResponse") st)
  end.

(** A JSON value into a [PostResponse]. The untagged [Replies] answers to
    any spelling of [replies] and takes an array of comments. *)
Definition decode_PostResponse (base : nat) (v : json.Value) (p : PostResponse)
    (st : dstate) : dres PostResponse :=
  match v with
  | json.Null => inr (p, st)
  | json.Object ms =>
      foldM
        (fun (m : bytes * (bytes * json.Value)) (ps : PostResponse * dstate) =>
           let '(key, (raw, v')) := m in
           let '(p, st) := ps in
           match json.find_field (names_of PostResponse_fields) (json.unquote key) with
           | None => inr (p, st)
           | Some i =>
               match ftype <$> PostResponse_fields !! i with
               | Some (Scalar k) =>
                   match set_scalar k i raw v' (post_scalars p) st with
                   | inl e => inl e
                   | inr (vals, st') => inr (mkPost vals (post_Replies p), st')
                   end
               | Some TComments =>
                   match v' with
                   | json.Null => inr (mkPost (post_scalars p) [], st)
                   | json.Array elems =>
                       match
                         foldM
                           (fun (el : bytes * json.Value) (cs : list CommentResponse * dstate) =>
                              let '(cs, st) := cs in
                              match decode_CommentResponse base (snd el) zero_CommentResponse st with
                              | inl e => inl e
                              | inr (ce, st') => inr ((cs ++ [ce])%list, st')
                              end)
                           elems ([], st)
                       with
                       | inl e => inl e
                       | inr (cs, st') => inr (mkPost (post_scalars p) cs, st')
                       end
                   | _ =>
                       inr (p, saveError (UnmarshalTypeError (json.describe v') "[]CommentResponse") st)
                   end
               | _ => inr (p, st)
               end
           end)
        ms (p, st)
  | _ => inr (p, saveError (UnmarshalTypeError (json.describe v) "PostResponse") st)
  end.

Section Listing.

(** The innermost [Data]: its type's decoder and zero value. *)
Context {T : Type}.
Variable decode_T : nat -> json.Value -> T -> dstate -> dres T.
Variable zero_T : T.

(** A struct with the single field [name]: the members that select it are
    decoded into it one after the other, the others are skipped. *)
Definition decode_single {X : Type} (name tyname : string)
    (dec : json.Value -> X -> dstate -> dres X)
    (v : json.Value) (x : X) (st : dstate) : dres X :=
  match v with
  | json.Null => inr (x, st)
  | json.Object ms =>
      foldM
        (fun (m : bytes * (bytes * json.Value)) (xs : X * dstate) =>
           match json.find_field [name] (json.unquote (fst m)) with
           | Some _ => dec (snd (snd m)) (fst xs) (snd xs)
           | None => inr xs
           end)
        ms (x, st)
  | _ => inr (x, saveError (UnmarshalTypeError (json.describe v) tyname) st)
  end.

(** [xxxIntermediary2]: a single field [Data T], tagged [data]. *)
Definition decode_Intermediary2 (base : nat) : json.Value -> Intermediary2 T -> dstate -> dres (Intermediary2 T) :=
  decode_single "data" "Intermediary2"
    (fun v x st =>
       match decode_T base v (Data2 x) st with
       | inl e => inl e
       | inr (d, st') => inr (mkI2 d, st')
       end).

(** [Children []xxxIntermediary2]: an array resets the slice and appends an
    element per item, each decoded from the zero value; [null] empties it. *)
Definition decode_Children (base : nat) (v : json.Value) (old : list (Intermediary2 T))
    (st : dstate) : dres (list (Intermediary2 T)) :=
  match v with
  | json.Null => inr ([], st)
  | json.Array elems =>
      foldM
        (fun (el : bytes * json.Value) (xs : list (Intermediary2 T) * dstate) =>
           match decode_Intermediary2 base (snd el) (mkI2 zero_T) (snd xs) with
           | inl e => inl e
           | inr (x, st') => inr ((fst xs ++ [x])%list, st')
           end)
        elems ([], st)
  | _ => inr (old, saveError (UnmarshalTypeError (json.describe v) "[]Intermediary2") st)
  end.

(** [xxxIntermediary1]: a single field [Children], a slice of
    [xxxIntermediary2], tagged [children]. *)
Definition decode_Intermediary1 (base : nat) : json.Value -> Intermediary1 T -> dstate -> dres (Intermediary1 T) :=
  decode_single "children" "Intermediary1"
    (fun v x st =>
       match decode_Children base v (Children x) st with
       | inl e => inl e
       | inr (cs, st') => inr (mkI1 cs, st')
       end).

(** [xxxListingIntermediary]: a single field [Data xxxIntermediary1],
    tagged [data]. *)
Definition decode_Listing (base : nat) : json.Value -> ListingIntermediary T -> dstate -> dres (ListingIntermediary T) :=
  decode_single "data" "ListingIntermediary"
    (fun v x st =>
       match decode_Intermediary1 base v (Data x) st with
       | inl e => inl e
       | inr (d, st') => inr (mkListing d, st')
       end).

Definition zero_Listing : ListingIntermediary T := mkListing (mkI1 []).

(** [json.Unmarshal(data, &listing)] for a zero [listing]: the text is
    checked as a whole first, then decoded; a remembered type mismatch is
    returned at the end. On success the records allocated on the way come
    with the listing; they are to sit in the heap from [base] on. *)
Definition Unmarshal_Listing (base : nat) (data : bytes)
  : json.pres (ListingIntermediary T * list CommentResponse) :=
  match json.checkValid data with
  | json.PFuel => json.PFuel
  | json.PErr e => json.PErr e
  | json.POk (_, v) =>
      match decode_Listing base v zero_Listing (mkD [] None) with
      | inl e => json.PErr e
      | inr (x, st) =>
          match d_saved st with
          | Some e => json.PErr e
          | None => json.POk (x, d_fresh st)
          end
      end
  end.

End Listing.

Definition Unmarshal_commentListing : nat -> bytes -> json.pres (commentListingIntermediary * list CommentResponse) :=
  Unmarshal_Listing decode_CommentResponse zero_CommentResponse.

Definition Unmarshal_postListing : nat -> bytes -> json.pres (postListingIntermediary * list CommentResponse) :=
  Unmarshal_Listing decode_PostResponse zero_PostResponse.

(** [decodeJSON(body, &arrays)] with [var arrays []json.RawMessage]: a
    [json.Decoder] reads the first value of the stream and leaves what
    follows it unread. Every element of an array is kept as its bytes. *)
Definition decodeJSON_arrays (body : bytes) : json.pres (list bytes) :=
  match json.skip_space body with
  | EmptyString => json.PErr io_EOF
  | _ =>
      match json.first_value body with
      | json.PFuel => json.PFuel
      | json.PErr (SyntaxError UnexpectedEnd) => json.PErr io_ErrUnexpectedEOF
      | json.PErr e => json.PErr e
      | json.POk (_, v, _) =>
          match v with
          | json.Null => json.POk []
          | json.Array elems => json.POk (map fst elems)
          | _ => json.PErr (UnmarshalTypeError (json.describe v) "[]json.RawMessage")
          end
      end
  end.

(** ** DecodeReplies *)

(** How a call ends: it returns, it panics, or the model ran out of fuel. *)
Inductive outcome (A : Type) :=
| Returns (a : A)
| Panics (msg : string)
| OutOfFuel.
Arguments Returns {A} a.
Arguments Panics {A} msg.
Arguments OutOfFuel {A}.

(** The variable of a [for ... range] statement: one variable for the whole
    loop, which every iteration assigns anew (the language up to Go 1.21,
    and of any module whose go.mod asks for less than 1.22), or a new
    variable in each iteration (Go 1.22 on). The package predates Go 1.22;
    [PerLoop] is its meaning. *)
Inductive loopvar := PerLoop | PerIteration.

(** The empty-string literal: two double quotes. *)
Definition empty_string_literal : bytes := String dquote (String dquote EmptyString).

Definition set_RepliesListing (b : bytes) (c : CommentResponse) : CommentResponse :=
  mkComment (scalars c) b (Replies c).

Definition append_Replies (p : ptr) (c : CommentResponse) : CommentResponse :=
  mkComment (scalars c) (RepliesListing c) (Replies c ++ [p])%list.

(** Where the range variable [comment] lives in this iteration: [var] is its
    place in the previous iteration, if there was one. *)
Definition range_var (lv : loopvar) (var : option addr) (h : heap) : heap * addr :=
  match lv, var with
  | PerLoop, Some a => (h, a)
  | _, _ => ((h ++ [zero_CommentResponse])%list, length h)
  end.

(** [for _, comment := range commentListing.Data.Children { ... }] in
    [DecodeReplies]; [decode] is the recursive call. *)
Fixpoint range_Children (lv : loopvar)
    (decode : heap -> addr -> outcome (heap * option error))
    (parentComment : addr) (var : option addr)
    (children : list (Intermediary2 CommentResponse)) (h : heap)
  : outcome (heap * option error) :=
  match children with
  | [] => Returns (h, None)
  | child :: rest =>
      let '(h, comment) := range_var lv var h in
      (* comment = child *)
      let h := <[comment := Data2 child]> h in
      (* parentComment.Replies = append(parentComment.Replies, &comment.Data) *)
      let h := alter (append_Replies (Some comment)) parentComment h in
      (* err = comment.Data.DecodeReplies() *)
      match decode h comment with
      | Returns (h, None) => range_Children lv decode parentComment (Some comment) rest h
      | r => r
      end
  end.

(** [func (parentComment *CommentResponse) DecodeReplies() error]. The heap
    after the call and the error come out. The deferred function empties
    [RepliesListing] on the two paths that clear [failed]. *)
Fixpoint DecodeReplies (lv : loopvar) (fuel : nat) (h : heap) (parentComment : addr)
  : outcome (heap * option error) :=
  match fuel with
  | O => OutOfFuel
  | S fuel' =>
      match h !! parentComment with
      | None => Panics "invalid memory address or nil pointer dereference"
      | Some pc =>
          if String.eqb (RepliesListing pc) empty_string_literal then
            Returns (alter (set_RepliesListing "") parentComment h, None)
          else
            match Unmarshal_commentListing (length h) (RepliesListing pc) with
            | json.PFuel => OutOfFuel
            | json.PErr err => Returns (h, Some err)
            | json.POk (commentListing, fresh) =>
                match
                  range_Children lv (DecodeReplies lv fuel') parentComment None
                    (Children (Data commentListing)) (h ++ fresh)%list
                with
                | Returns (h', None) =>
                    Returns (alter (set_RepliesListing "") parentComment h', None)
                | r => r
                end
            end
      end
  end.

(** ** RequestPostJSON *)

(** The loop of [RequestPostJSON] over the top-level comments; [comments] is
    the slice built so far. *)
Fixpoint range_comments (lv : loopvar) (fuel : nat) (var : option addr)
    (children : list (Intermediary2 CommentResponse)) (comments : list CommentResponse)
    (h : heap) : outcome (heap * (list CommentResponse + error)) :=
  match children with
  | [] => Returns (h, inl comments)
  | child :: rest =>
      let '(h, comment) := range_var lv var h in
      let h := <[comment := Data2 child]> h in
      match DecodeReplies lv fuel h comment with
      | Returns (h, Some err) => Returns (h, inr err)
      | Returns (h, None) =>
          (* comments = append(comments, comment.Data) *)
          range_comments lv fuel (Some comment) rest
            (comments ++ [default zero_CommentResponse (h !! comment)])%list h
      | Panics msg => Panics msg
      | OutOfFuel => OutOfFuel
      end
  end.

Definition with_Replies (cs : list CommentResponse) (p : PostResponse) : PostResponse :=
  mkPost (post_scalars p) cs.

(** [RequestPostJSON], a method of [*RedditAPI] that returns a pointer to a
    [PostResponse] and an error,
    from the answer of [api.Get] on: [resp] is the error of the request or
    the body of the response. The pair returned is Go's; the heap holds the
    records that the [Replies] of the comments point to. *)
Definition RequestPostJSON (lv : loopvar) (fuel : nat) (resp : error + bytes)
  : outcome (heap * (option PostResponse * option error)) :=
  match resp with
  | inl err => Returns ([], (None, Some err))
  | inr body =>
      (* decode into arrays *)
      match decodeJSON_arrays body with
      | json.PFuel => OutOfFuel
      | json.PErr err => Returns ([], (None, Some err))
      | json.POk arrays =>
          (* decode the first item into a post *)
          match arrays !! 0%nat with
          | None => Panics "index out of range [0]"
          | Some a0 =>
              match Unmarshal_postListing 0 a0 with
              | json.PFuel => OutOfFuel
              | json.PErr err => Returns ([], (None, Some err))
              | json.POk (posts, h) =>
                  match Children (Data posts) !! 0%nat with
                  | None => Panics "index out of range [0] with length 0"
                  | Some first =>
                      let post := Data2 first in
                      (* decode the second item into a comments listing *)
                      match arrays !! 1%nat with
                      | None => Panics "index out of range [1]"
                      | Some a1 =>
                          match Unmarshal_commentListing (length h) a1 with
                          | json.PFuel => OutOfFuel
                          | json.PErr err => Returns (h, (None, Some err))
                          | json.POk (commentsListing, fresh) =>
                              match
                                range_comments lv fuel None
                                  (Children (Data commentsListing)) [] (h ++ fresh)%list
                              with
                              | Returns (h', inr err) => Returns (h', (None, Some err))
                              | Returns (h', inl comments) =>
                                  Returns (h', (Some (with_Replies comments post), None))
                              | Panics msg => Panics msg
                              | OutOfFuel => OutOfFuel
                              end
                          end
                      end
                  end
              end
          end
      end
  end.

(** ** Reading a forest back from the heap *)

(** JSON texts below are written with an apostrophe where the text has a
    double quote. *)
Definition json_text (s : string) : bytes :=
  string_of_list_ascii
    (map (fun c => if Ascii.eqb c "'" then dquote else c) (list_ascii_of_string s)).

(** ** Predicates of the statements *)

Local Open Scope nat_scope.

(** [wfv n v]: [v] was read from [n] bytes, so every element and member
    value inside it comes with strictly fewer bytes, and so on downwards. *)
#[local] Set Warnings "-register-all".
Inductive wfv : nat -> json.Value -> Prop :=
| wfv_Null n : wfv n json.Null
| wfv_Bool n b : wfv n (json.Bool b)
| wfv_Number n l : wfv n (json.Number l)
| wfv_Str n l : wfv n (json.Str l)
| wfv_Array n elems :
    Forall (fun el => String.length (fst el) < n /\ wfv (String.length (fst el)) (snd el)) elems ->
    wfv n (json.Array elems)
| wfv_Object n ms :
    Forall (fun m => String.length (fst (snd m)) < n
                     /\ wfv (String.length (fst (snd m))) (snd (snd m))) ms ->
    wfv n (json.Object ms).
#[local] Set Warnings "+register-all".

(** With fuel for twice the length of the input, the scanner does not run
    out, it reads a non-empty prefix, and what it reads is well sized. *)
Definition value_ok (fuel : nat) : Prop :=
  forall depth s, 2 * String.length s + 1 <= fuel ->
    match json.value fuel depth s with
    | json.PFuel => False
    | json.PErr _ => True
    | json.POk (v, r) =>
        String.length r < String.length s /\ wfv (String.length s - String.length r) v
    end.

Definition elements_ok (fuel : nat) : Prop :=
  forall depth s, 2 * String.length s + 2 <= fuel ->
    match json.elements fuel depth s with
    | json.PFuel => False
    | json.PErr _ => True
    | json.POk (es, r) =>
        String.length r < String.length s /\
        Forall (fun el => String.length (fst el) < String.length s - String.length r
                          /\ wfv (String.length (fst el)) (snd el)) es
    end.

Definition members_ok (fuel : nat) : Prop :=
  forall depth s, 2 * String.length s + 2 <= fuel ->
    match json.members fuel depth s with
    | json.PFuel => False
    | json.PErr _ => True
    | json.POk (ms, r) =>
        String.length r < String.length s /\
        Forall (fun m => String.length (fst (snd m)) < String.length s - String.length r
                         /\ wfv (String.length (fst (snd m))) (snd (snd m))) ms
    end.

(** What a call of [DecodeReplies] on [p] may do to the heap: make it
    longer, and change the record at [p] in its [RepliesListing] and by
    appending to its [Replies]. The buffer is emptied on success and kept
    on failure. *)
Definition call_spec (decode : heap -> addr -> outcome (heap * option error)) : Prop :=
  forall h p h' e, decode h p = Returns (h', e) ->
    exists c c', h !! p = Some c /\ h' !! p = Some c' /\
      length h <= length h' /\
      (forall a, a < length h -> a <> p -> h' !! a = h !! a) /\
      scalars c' = scalars c /\
      (e = None -> RepliesListing c' = "") /\
      (e <> None -> RepliesListing c' = RepliesListing c) /\
      exists new, Replies c' = (Replies c ++ new)%list.

(** A top-level comment as it is attached to the post: the fields of the
    child it was copied from, its replies decoded and its buffer released. *)
Definition attached (c : CommentResponse) (ch : Intermediary2 CommentResponse) : Prop :=
  scalars c = scalars (Data2 ch) /\ RepliesListing c = "".

(** The loop of [RequestPostJSON] stopped at the first comment whose replies
    failed to decode: the comments [pre] in front of it went through, and
    [err] is what the call on [ch] returned. *)
Definition first_failure (lv : loopvar) (fuel : nat) (var : option addr)
    (children : list (Intermediary2 CommentResponse)) (comments : list CommentResponse)
    (h : heap) (err : error) : Prop :=
  exists pre ch post hpre cs hk a hk',
    children = (pre ++ ch :: post)%list /\
    range_comments lv fuel var pre comments h = Returns (hpre, inl cs) /\
    hk !! a = Some (Data2 ch) /\
    DecodeReplies lv fuel hk a = Returns (hk', Some err).

(** What [RequestPostJSON] returns once the post [first] has been taken
    from element 0 (decoded with the records [h0]): the post with the
    comments of element 1 attached in order, or the error of element 1, or
    the error of the first comment whose replies do not decode. *)
Definition assembled (lv : loopvar) (fuel : nat) (h0 : heap) (a1 : bytes)
    (first : Intermediary2 PostResponse)
    (r : option PostResponse * option error) : Prop :=
  match Unmarshal_commentListing (length h0) a1 with
  | json.PFuel => False
  | json.PErr e1 => r = (None, Some e1)
  | json.POk (cl, fresh) =>
      (exists p, r = (Some p, None) /\
                 post_scalars p = post_scalars (Data2 first) /\
                 Forall2 attached (post_Replies p) (Children (Data cl)))
      \/ (exists err, r = (None, Some err) /\
                      first_failure lv fuel None (Children (Data cl)) [] (h0 ++ fresh)%list err)
  end.

(** No member of [ms] selects the field [name]. *)
Definition lacks (name : string) (ms : list (bytes * (bytes * json.Value))) : Prop :=
  Forall (fun m => json.find_field [name] (json.unquote (fst m)) = None) ms.

(** An envelope without children: every member of the object is either not
    [data], or is a [data] that is [null] or an object without [children]. *)
Definition childless (ms : list (bytes * (bytes * json.Value))) : Prop :=
  Forall (fun m => json.find_field ["data"] (json.unquote (fst m)) = None
                   \/ snd (snd m) = json.Null
                   \/ exists ms', snd (snd m) = json.Object ms' /\ lacks "children" ms') ms.

(** The records that a sequence of pointers leads to. *)
Definition deref (h : heap) (ps : list ptr) : list (option CommentResponse) :=
  map (fun p : ptr => match p with Some a => h !! a | None => None end) ps.

Definition Body (c : CommentResponse) : option fval := comment_field c "Body".

(** ** Example inputs *)

(** A nested listing of two comments, [A] and [B], neither with replies. *)
Definition ex_replies : bytes :=
  json_text "{'data':{'children':[{'data':{'body':'A','replies':''}},{'data':{'body':'B','replies':''}}]}}".

(** A comment that carries [ex_replies], at address 0 of a heap of its own. *)
Definition ex_parent : CommentResponse :=
  mkComment (zero_scalars CommentResponse_fields) ex_replies [].

Definition ex_listing : commentListingIntermediary :=
  Eval vm_compute in
    match Unmarshal_commentListing 1 ex_replies with
    | json.POk (l, _) => l
    | _ => zero_Listing
    end.

(** The heap after [DecodeReplies] on [ex_parent], one variable per loop. *)
Definition ex_decoded : heap :=
  Eval vm_compute in
    match DecodeReplies PerLoop 3 [ex_parent] 0 with
    | Returns (h, _) => h
    | _ => []
    end.

(** The same with a variable per iteration. *)
Definition ex_decoded_1_22 : heap :=
  Eval vm_compute in
    match DecodeReplies PerIteration 3 [ex_parent] 0 with
    | Returns (h, _) => h
    | _ => []
    end.

(** A comment whose nested listing has a first child without a [replies]
    member: decoding that child fails. *)
Definition ex_failing : CommentResponse :=
  mkComment (zero_scalars CommentResponse_fields)
    (json_text "{'data':{'children':[{'data':{'body':'A'}},{'data':{'body':'B','replies':''}}]}}") [].

Definition ex_failed : heap :=
  Eval vm_compute in
    match DecodeReplies PerLoop 3 [ex_failing] 0 with
    | Returns (h, _) => h
    | _ => []
    end.

(** A comment without replies. *)
Definition ex_leaf : CommentResponse :=
  mkComment (zero_scalars CommentResponse_fields) empty_string_literal [].

(** A response whose element 0 holds two posts. *)
Definition ex_two_posts : bytes :=
  json_text "[{'data':{'children':[{'data':{'id':'p1'}},{'data':{'id':'p2'}}]}},{'data':{'children':[{'data':{'body':'A','replies':''}}]}}]".

Definition ex_two_posts_arrays : list bytes :=
  Eval vm_compute in
    match decodeJSON_arrays ex_two_posts with
    | json.POk a => a
    | _ => []
    end.

Definition ex_two_posts_listing : postListingIntermediary :=
  Eval vm_compute in
    match Unmarshal_postListing 0 (default "" (ex_two_posts_arrays !! 0)) with
    | json.POk (l, _) => l
    | _ => zero_Listing
    end.

(** A response with one post and two top-level comments. *)
Definition ex_response : bytes :=
  json_text "[{'data':{'children':[{'data':{'id':'p1','created_utc':1622548800.0}}]}},{'data':{'children':[{'data':{'body':'A','replies':''}},{'data':{'body':'B','replies':''}}]}}]".

Definition ex_response_arrays : list bytes :=
  Eval vm_compute in
    match decodeJSON_arrays ex_response with
    | json.POk a => a
    | _ => []
    end.

(** An envelope with a [data] object that has no [children]. *)
Definition ex_no_children : bytes := json_text "{'data':{}}".

Definition ex_no_children_members : list (bytes * (bytes * json.Value)) :=
  Eval vm_compute in
    match json.checkValid ex_no_children with
    | json.POk (_, json.Object ms) => ms
    | _ => []
    end.

(** A response with one post and two top-level comments, [X] and [Y]; the
    [replies] of [X] is the nested listing [ex_replies] of [A] and [B]. *)
Definition ex_nested_response : bytes :=
  json_text "[{'data':{'children':[{'data':{'id':'p1'}}]}},{'data':{'children':[{'data':{'body':'X','replies':{'data':{'children':[{'data':{'body':'A','replies':''}},{'data':{'body':'B','replies':''}}]}}}},{'data':{'body':'Y','replies':''}}]}}]".

Definition ex_nested_arrays : list bytes :=
  Eval vm_compute in
    match decodeJSON_arrays ex_nested_response with
    | json.POk a => a
    | _ => []
    end.

(** The comments of element 1 of [ex_nested_response] as they are decoded,
    before the loop of [RequestPostJSON] runs. *)
Definition ex_nested_listing : commentListingIntermediary :=
  Eval vm_compute in
    match Unmarshal_commentListing 0 (default "" (ex_nested_arrays !! 1)) with
    | json.POk (l, _) => l
    | _ => zero_Listing
    end.

(** The heap and the post that [RequestPostJSON] returns on
    [ex_nested_response], one variable per loop. *)
Definition ex_nested_heap : heap :=
  Eval vm_compute in
    match RequestPostJSON PerLoop 400 (inr ex_nested_response) with
    | Returns (h, _) => h
    | _ => []
    end.

Definition ex_nested_post : PostResponse :=
  Eval vm_compute in
    match RequestPostJSON PerLoop 400 (inr ex_nested_response) with
    | Returns (_, (Some p, _)) => p
    | _ => mkPost (zero_scalars PostResponse_fields) []
    end.

(** * The rest of the package *)

(** ** RequestPostJSON: the path of the request *)

(** The loop that removes the trailing slashes, run on the path read from
    its last byte backwards: [path[len(path)-1]] is the head of [r], and on
    an empty path its index is out of range. *)
Fixpoint trim_slashes (r : list byte) : outcome (list byte) :=
  match r with
  | [] => Panics "index out of range [-1]"
  | c :: r' => if Ascii.eqb c "/" then trim_slashes r' else Returns r
  end.

(** Lines 273 to 280 of [RequestPostJSON]: the trailing slashes of [u.Path]
    are removed and [.json] is appended. *)
Definition post_json_path (path : bytes) : outcome bytes :=
  match trim_slashes (rev (list_ascii_of_string path)) with
  | Returns r => Returns (string_of_list_ascii (rev r) ++ ".json")%string
  | Panics msg => Panics msg
  | OutOfFuel => OutOfFuel
  end.

(** [n] slashes. *)
Definition slashes (n : nat) : bytes := string_of_list_ascii (replicate n "/"%char).

(** ** CommentsByScore *)

(** [c.Score] *)
Definition Score (c : CommentResponse) : Z :=
  match comment_field c "Score" with
  | Some (VInt z) => z
  | _ => 0%Z
  end.

(** [a[i]] for an [int] index: out of range below 0 and from [len(a)] on. *)
Definition slice_index {A : Type} (a : list A) (i : Z) : option A :=
  if (i <? 0)%Z then None else a !! Z.to_nat i.

Module CommentsByScore.

Definition Len (a : list CommentResponse) : Z := Z.of_nat (length a).

(** [a[i], a[j] = a[j], a[i]]: both elements are read, then both stored.
    The slice shares its array with the caller's, which sees the result. *)
Definition Swap (a : list CommentResponse) (i j : Z) : outcome (list CommentResponse) :=
  match slice_index a i, slice_index a j with
  | Some x, Some y => Returns (<[Z.to_nat j := x]> (<[Z.to_nat i := y]> a))
  | _, _ => Panics "index out of range"
  end.

Definition Less (a : list CommentResponse) (i j : Z) : outcome bool :=
  match slice_index a i, slice_index a j with
  | Some x, Some y => Returns (Score x <? Score y)%Z
  | _, _ => Panics "index out of range"
  end.

End CommentsByScore.

Module CommentsByScoreDescending.

Definition Len (a : list CommentResponse) : Z := Z.of_nat (length a).

Definition Swap (a : list CommentResponse) (i j : Z) : outcome (list CommentResponse) :=
  match slice_index a i, slice_index a j with
  | Some x, Some y => Returns (<[Z.to_nat j := x]> (<[Z.to_nat i := y]> a))
  | _, _ => Panics "index out of range"
  end.

Definition Less (a : list CommentResponse) (i j : Z) : outcome bool :=
  match slice_index a i, slice_index a j with
  | Some x, Some y => Returns (Score x >? Score y)%Z
  | _, _ => Panics "index out of range"
  end.

End CommentsByScoreDescending.

(** ** The error hook *)

(** [logrus.Level] *)
Inductive Level :=
| PanicLevel | FatalLevel | ErrorLevel | WarnLevel | InfoLevel | DebugLevel | TraceLevel.

(** [RedditErrorHook], without the pointer to the API. *)
Record RedditErrorHook := mkHook {
  Username : string;
  BotName : string;
  TimeFormat : string;
  levels : list Level
}.

Definition defaultLogMessageTimeFormat : string := "Mon 2 Jan 2006, 15:04:05".

Definition logMessageMaxSubjectLength : nat := 40.

(** The built-in [copy(dst, src)]: as many elements as both slices have go
    from [src] over the front of [dst]; the new [dst] and the count. *)
Definition copy {A : Type} (dst src : list A) : list A * nat :=
  let n := Nat.min (length dst) (length src) in
  ((take n src ++ drop n dst)%list, n).

(** Errors made by [errors.New]. *)
Inductive errorString := errors_New (msg : string).

(** [SendErrors]: [defaults] is the package variable
    [defaultHookErrorLevels] before the call; it comes back as the call
    leaves it, with the pair that the function returns. *)
Definition SendErrors (defaults : list Level) (username botName : string)
  : list Level * (option RedditErrorHook * option errorString) :=
  if String.eqb username "" then
    (defaults, (None, Some (errors_New "no username to send errors to")))
  else
    let hook := mkHook username botName defaultLogMessageTimeFormat [] in
    (* copy(defaultHookErrorLevels, hook.levels) *)
    let '(defaults', _) := copy defaults (levels hook) in
    (defaults', (Some hook, None)).

(** [hook.Levels()] and [hook.SetLevels(levels)] *)
Definition Levels (hook : RedditErrorHook) : list Level := levels hook.

Definition SetLevels (hook : RedditErrorHook) (ls : list Level) : RedditErrorHook :=
  mkHook (Username hook) (BotName hook) (TimeFormat hook) ls.

(** The switch of [Fire] over the level of the entry; it has no default. *)
Definition level_name (l : Level) : string :=
  match l with
  | PanicLevel => "PANIC"
  | FatalLevel => "FATAL"
  | ErrorLevel => "ERROR"
  | WarnLevel => "WARN"
  | _ => ""
  end.

(** [s[:n]] on a string of at least [n] bytes. *)
Definition prefix_bytes (n : nat) (s : string) : string := String.substring 0 n s.

(** The subject of the message: level, bot and message, cut to the maximum
    length with three dots appended. *)
Definition Fire_subject (hook : RedditErrorHook) (l : Level) (message : string) : string :=
  let subject := (level_name l ++ " in " ++ BotName hook ++ ": " ++ message)%string in
  if logMessageMaxSubjectLength <? String.length subject then
    (prefix_bytes logMessageMaxSubjectLength subject ++ "...")%string
  else subject.

(** The check of the addressee: [hook.Username[:3]] needs three bytes. *)
Definition Fire_username (username : string) : outcome string :=
  if String.length username <? 3 then Panics "slice bounds out of range [:3]"
  else
    let p := prefix_bytes 3 username in
    if negb (String.eqb p "/u/") && negb (String.eqb p "/r/") then
      Returns ("/u/" ++ username)%string
    else Returns username.

(** [Fire]. The body of the message (time, message, data, caller) is
    formatted by [fmt] and [time] from the entry; it is taken as [text].
    [send] is [hook.Reddit.ComposeMessage]. The hook after the call and the
    error come out. *)
Definition Fire (send : string -> string -> string -> option errorString)
    (hook : RedditErrorHook) (l : Level) (message text : string)
  : outcome (RedditErrorHook * option errorString) :=
  let subject := Fire_subject hook l message in
  match Fire_username (Username hook) with
  | Returns u =>
      let hook' := mkHook u (BotName hook) (TimeFormat hook) (levels hook) in
      Returns (hook', send u subject text)
  | Panics msg => Panics msg
  | OutOfFuel => OutOfFuel
  end.

(** ** TokenExpiresIn *)

(** [json.Unmarshal(data, &n)] for an [int64] that holds [old]: a number
    that [strconv.ParseInt] reads, [null] (which changes nothing), or an
    error. *)
Definition Unmarshal_int64 (old : Z) (data : bytes) : json.pres Z :=
  match json.checkValid data with
  | json.PFuel => json.PFuel
  | json.PErr e => json.PErr e
  | json.POk (raw, v) =>
      match decode_scalar KInt64 raw v (VInt old) with
      | inl e => json.PErr e
      | inr (_, Some e) => json.PErr e
      | inr (VInt n, None) => json.POk n
      | inr (_, None) => json.POk old
      end
  end.

(** [int64(time.Second)], in nanoseconds. *)
Definition time_Second : Z := 1000000000.

(** [%d] of an [int64]. *)
Definition format_int (z : Z) : string := DecimalString.NilZero.string_of_int (Z.to_int z).

Definition newline : string := String "010"%char EmptyString.

(** [func (t *TokenExpiresIn) UnmarshalJSON(data []byte) error]: the value
    of the receiver after the call, what the call wrote to standard output,
    and the error. *)
Definition TokenExpiresIn_UnmarshalJSON (t : Z) (data : bytes)
  : outcome (Z * string * option error) :=
  match Unmarshal_int64 0 data with
  | json.PFuel => OutOfFuel
  | json.PErr err => Returns (t, "", Some err)
  | json.POk int64_duration =>
      Returns (wrap64 (int64_duration * time_Second),
               (format_int int64_duration ++ newline)%string, None)
  end.

(** ** More example inputs *)

(** The heap after [DecodeReplies] on [ex_parent] with a second comment,
    [ex_leaf], beside it. *)
Definition ex_framed : list CommentResponse :=
  Eval vm_compute in
    match DecodeReplies PerLoop 3 [ex_parent; ex_leaf] 0 with
    | Returns (h, _) => h
    | _ => []
    end.

Definition ex_failing_listing : commentListingIntermediary :=
  Eval vm_compute in
    match Unmarshal_commentListing 1 (RepliesListing ex_failing) with
    | json.POk (l, _) => l
    | _ => zero_Listing
    end.

(** A response whose element 0 is a listing without children. *)
Definition ex_no_post : bytes :=
  json_text "[{'data':{'children':[]}},{'data':{'children':[]}}]".

(** A response of a single element. *)
Definition ex_one_element : bytes :=
  json_text "[{'data':{'children':[{'data':{'id':'p1'}}]}}]".

(** A response with a post and no comments. *)
Definition ex_no_comments : bytes :=
  json_text "[{'data':{'children':[{'data':{'id':'p1'}}]}},{'data':{'children':[]}}]".

Definition ex_no_comments_post : Intermediary2 PostResponse :=
  mkI2 (mkPost (<[6 := VString "p1"]> (zero_scalars PostResponse_fields)) []).

(** The bytes that the text of a boolean or of a number can begin with:
    a digit, a sign, a point, an underscore, or the first letter of
    [true], [false], [inf], [nan] and of their other spellings. *)
Definition scalar_start (c : byte) : bool :=
  is_digit c
  || existsb (Ascii.eqb c)
       ["+"; "-"; "."; "_"; "i"; "I"; "n"; "N"; "t"; "T"; "f"; "F"]%char.

(** An optional minus sign in front of a string of digits. *)
Definition signed (neg : bool) (digits : string) : string :=
  if neg then String "-" digits else digits.

(** A hook as [SendErrors] makes it. *)
Definition ex_hook : RedditErrorHook :=
  mkHook "someone" "mybot" defaultLogMessageTimeFormat [].

(** [defaultHookErrorLevels] as the package declares it. *)
Definition ex_default_levels : list Level := [PanicLevel; FatalLevel; ErrorLevel; WarnLevel].

(** * Properties of the scanner *)

Module json_facts.
Import json.

Lemma skip_space_le s : String.length (skip_space s) <= String.length s.
Proof.
  induction s as [|c s IH]; simpl; [lia|].
  destruct (isSpace c); simpl; lia.
Qed.

Lemma skip_digits_le s : String.length (skip_digits s) <= String.length s.
Proof.
  induction s as [|c s IH]; simpl; [lia|].
  destruct (is_digit c); simpl; lia.
Qed.

Lemma take_bytes_length n s : String.length (take_bytes n s) = Nat.min n (String.length s).
Proof.
  revert s; induction n as [|n IH]; intros [|c s]; simpl; auto.
Qed.

Lemma consumed_length s r :
  String.length r <= String.length s ->
  String.length (consumed s r) = String.length s - String.length r.
Proof. intros H. unfold consumed. rewrite take_bytes_length. lia. Qed.

Lemma scan_string_lt s r : scan_string s = inr r -> String.length r < String.length s.
Proof.
  remember (String.length s) as n eqn:Hn. revert s r Hn.
  induction n as [n IH] using lt_wf_ind. intros s r Hn H.
  destruct s as [|c s]; simpl in H; [discriminate|].
  repeat (case_match; try discriminate; simplify_eq; simpl in *);
    try lia;
    match goal with
    | H : scan_string ?t = inr _ |- _ =>
        eapply (IH (String.length t)) in H; [| simpl; lia | reflexivity ]; simpl in *; lia
    end.
Qed.

Lemma scan_exp_le s r : scan_exp s = inr r -> String.length r < String.length s.
Proof.
  unfold scan_exp. intros H.
  repeat (case_match; try discriminate; simplify_eq; simpl in *);
    match goal with |- context [skip_digits ?t] => pose proof (skip_digits_le t) end; lia.
Qed.

Lemma scan_frac_exp_le s r : scan_frac_exp s = inr r -> String.length r <= String.length s.
Proof.
  unfold scan_frac_exp. intros H.
  repeat (case_match; try discriminate; simplify_eq; simpl in *); try lia;
    repeat match goal with
    | H : scan_exp _ = inr _ |- _ => apply scan_exp_le in H
    | H : skip_digits ?t = _ |- _ => pose proof (skip_digits_le t); rewrite H in *; clear H
    end; simpl in *; lia.
Qed.

Lemma scan_number_lt s r : scan_number s = inr r -> String.length r < String.length s.
Proof.
  unfold scan_number. intros H.
  repeat (case_match; try discriminate; simplify_eq; simpl in *);
    repeat match goal with
    | H : scan_frac_exp _ = inr _ |- _ => apply scan_frac_exp_le in H
    end;
    repeat match goal with |- context [skip_digits ?t] => pose proof (skip_digits_le t) end;
    simpl in *; try lia.
  all: match goal with H : context [skip_digits ?t] |- _ => pose proof (skip_digits_le t) end; lia.
Qed.

Lemma expect_le lit s r : expect lit s = inr r -> String.length r <= String.length s.
Proof.
  revert s; induction lit as [|l lit IH]; intros s H; simpl in H.
  - by simplify_eq.
  - destruct s as [|c s]; [discriminate|]. case_match; [|discriminate].
    apply IH in H. simpl. lia.
Qed.


Lemma value_step fuel : members_ok fuel -> elements_ok fuel -> value_ok (S fuel).
Proof.
  intros IHm IHe depth s Hf.
  destruct s as [|c s']; [exact I|].
  cbn [value]. simpl in Hf.
  destruct (Ascii.eqb c "{").
  { destruct (_ <=? _)%Z; [exact I|].
    pose proof (skip_space_le s') as Hsp.
    destruct (skip_space s') as [|c1 r1]; [exact I|].
    destruct (Ascii.eqb c1 "}").
    - simpl in *. split; [lia|]. constructor. constructor.
    - specialize (IHm (depth + 1)%Z (String c1 r1)).
      destruct (members fuel _ _) as [[ms r]| |].
      + destruct IHm as [Hr Hall]; [simpl in *; lia|].
        simpl in *. split; [lia|]. constructor.
        eapply Forall_impl; [exact Hall|]. simpl. intros m [? ?]. split; [lia|done].
      + exact I.
      + apply IHm. simpl in *; lia. }
  destruct (Ascii.eqb c "[").
  { destruct (_ <=? _)%Z; [exact I|].
    pose proof (skip_space_le s') as Hsp.
    destruct (skip_space s') as [|c1 r1]; [exact I|].
    destruct (Ascii.eqb c1 "]").
    - simpl in *. split; [lia|]. constructor. constructor.
    - specialize (IHe (depth + 1)%Z (String c1 r1)).
      destruct (elements fuel _ _) as [[es r]| |].
      + destruct IHe as [Hr Hall]; [simpl in *; lia|].
        simpl in *. split; [lia|]. constructor.
        eapply Forall_impl; [exact Hall|]. simpl. intros m [? ?]. split; [lia|done].
      + exact I.
      + apply IHe. simpl in *; lia. }
  destruct (Ascii.eqb c dquote).
  { destruct (scan_string s') as [e|r] eqn:Hr; simpl; [exact I|].
    apply scan_string_lt in Hr. split; [lia|constructor]. }
  destruct (_ || _).
  { destruct (scan_number (String c s')) as [e|r] eqn:Hr; simpl; [exact I|].
    apply scan_number_lt in Hr. simpl in *. split; [lia|constructor]. }
  destruct (Ascii.eqb c "t").
  { destruct (expect "rue" s') as [e|r] eqn:Hr; simpl; [exact I|].
    apply expect_le in Hr. split; [lia|constructor]. }
  destruct (Ascii.eqb c "f").
  { destruct (expect "alse" s') as [e|r] eqn:Hr; simpl; [exact I|].
    apply expect_le in Hr. split; [lia|constructor]. }
  destruct (Ascii.eqb c "n").
  { destruct (expect "ull" s') as [e|r] eqn:Hr; simpl; [exact I|].
    apply expect_le in Hr. split; [lia|constructor]. }
  exact I.
Qed.

Lemma elements_step fuel : value_ok fuel -> elements_ok fuel -> elements_ok (S fuel).
Proof.
  intros IHv IHe depth s Hf.
  cbn [elements].
  specialize (IHv depth s).
  destruct (value fuel depth s) as [[v r]| |]; [|exact I|apply IHv; lia].
  destruct IHv as [Hr Hv]; [lia|].
  pose proof (skip_space_le r) as Hsp.
  destruct (skip_space r) as [|c r']; [exact I|].
  destruct (Ascii.eqb c ",").
  - pose proof (skip_space_le r') as Hsp'.
    specialize (IHe depth (skip_space r')).
    destruct (elements fuel depth (skip_space r')) as [[es r'']| |]; [|exact I|].
    + destruct IHe as [Hr' Hall]; [simpl in *; lia|].
      simpl in *. split; [lia|]. constructor.
      * simpl. rewrite consumed_length by lia. split; [lia|done].
      * eapply Forall_impl; [exact Hall|]. simpl. intros m [? ?]. split; [lia|done].
    + apply IHe. simpl in *; lia.
  - destruct (Ascii.eqb c "]"); [|exact I].
    simpl in *. split; [lia|]. constructor; [|constructor].
    simpl. rewrite consumed_length by lia. split; [lia|done].
Qed.

Lemma members_step fuel : value_ok fuel -> members_ok fuel -> members_ok (S fuel).
Proof.
  intros IHv IHm depth s Hf.
  cbn [members].
  destruct s as [|q s']; [exact I|].
  destruct (negb _); [exact I|].
  destruct (scan_string s') as [e|r0] eqn:Hs; [exact I|].
  apply scan_string_lt in Hs.
  pose proof (skip_space_le r0) as Hsp0.
  destruct (skip_space r0) as [|c r1]; [exact I|].
  destruct (negb _); [exact I|].
  pose proof (skip_space_le r1) as Hsp1.
  specialize (IHv depth (skip_space r1)).
  destruct (value fuel depth (skip_space r1)) as [[v r2]| |]; [|exact I|apply IHv; simpl in *; lia].
  destruct IHv as [Hr Hv]; [simpl in *; lia|].
  pose proof (skip_space_le r2) as Hsp2.
  destruct (skip_space r2) as [|c2 r3]; [exact I|].
  destruct (Ascii.eqb c2 ",").
  - pose proof (skip_space_le r3) as Hsp3.
    specialize (IHm depth (skip_space r3)).
    destruct (members fuel depth (skip_space r3)) as [[ms r4]| |]; [|exact I|].
    + destruct IHm as [Hr' Hall]; [simpl in *; lia|].
      simpl in *. split; [lia|]. constructor.
      * simpl. rewrite consumed_length by lia. split; [lia|done].
      * eapply Forall_impl; [exact Hall|]. simpl. intros m [? ?]. split; [lia|done].
    + apply IHm. simpl in *; lia.
  - destruct (Ascii.eqb c2 "}"); [|exact I].
    simpl in *. split; [lia|]. constructor; [|constructor].
    simpl. rewrite consumed_length by lia. split; [lia|done].
Qed.

Lemma scanner_ok fuel : value_ok fuel /\ elements_ok fuel /\ members_ok fuel.
Proof.
  induction fuel as [|fuel (IHv & IHe & IHm)].
  - repeat split; intros depth s Hf; lia.
  - split; [|split].
    + by apply value_step.
    + by apply elements_step.
    + by apply members_step.
Qed.

(** [first_value] never runs out of fuel; what it reads is a non-empty
    prefix of the text, and the elements inside are shorter still. *)
Lemma first_value_ok data :
  match first_value data with
  | PFuel => False
  | PErr _ => True
  | POk (raw, v, r) =>
      0 < String.length raw <= String.length data /\ wfv (String.length raw) v
  end.
Proof.
  unfold first_value.
  pose proof (skip_space_le data) as Hsp.
  destruct (scanner_ok (scan_fuel (skip_space data))) as (Hv & _ & _).
  specialize (Hv 0%Z (skip_space data)).
  destruct (value _ _ _) as [[v r]| |]; [|exact I|apply Hv; unfold scan_fuel; lia].
  destruct Hv as [Hr Hv]; [unfold scan_fuel; lia|].
  rewrite consumed_length by lia. split; [lia|done].
Qed.

Lemma checkValid_ok data :
  match checkValid data with
  | PFuel => False
  | PErr _ => True
  | POk (raw, v) =>
      0 < String.length raw <= String.length data /\ wfv (String.length raw) v
  end.
Proof.
  unfold checkValid. pose proof (first_value_ok data) as H.
  destruct (first_value data) as [[[raw v] r]| |]; [|exact I|done].
  destruct (skip_space r); [done|exact I].
Qed.

End json_facts.
Import json_facts.

(** * Sizes of what the decoder stores *)

Lemma wfv_Array_inv n elems :
  wfv n (json.Array elems) ->
  Forall (fun el => String.length (fst el) < n /\ wfv (String.length (fst el)) (snd el)) elems.
Proof. by inversion 1. Qed.

Lemma wfv_Object_inv n ms :
  wfv n (json.Object ms) ->
  Forall (fun m => String.length (fst (snd m)) < n
                   /\ wfv (String.length (fst (snd m))) (snd (snd m))) ms.
Proof. by inversion 1. Qed.

(** An invariant of the state is kept by [foldM] when every step keeps it. *)
Lemma foldM_inv {A S : Type} (Q : A -> Prop) (P : S -> Prop) (f : A -> S -> error + S) l s s' :
  Forall Q l ->
  (forall a s s', Q a -> P s -> f a s = inr s' -> P s') ->
  P s -> foldM f l s = inr s' -> P s'.
Proof.
  intros HQ Hstep. revert s.
  induction HQ as [|a l Ha _ IH]; intros s Hs H; simpl in H.
  - by simplify_eq.
  - destruct (f a s) as [e|s1] eqn:Hf; [discriminate|].
    eapply IH; [|exact H]. eauto.
Qed.

(** Decoding a value read from [n] bytes leaves in [RepliesListing] either
    what was there or fewer than [n] bytes. *)
Lemma decode_CommentResponse_RepliesListing base v c st c' st' n N :
  wfv n v -> n <= N ->
  String.length (RepliesListing c) < N ->
  decode_CommentResponse base v c st = inr (c', st') ->
  String.length (RepliesListing c') < N.
Proof.
  intros Hwf Hn Hc H.
  destruct v; simpl in H; try (by simplify_eq).
  apply wfv_Object_inv in Hwf.
  eapply (foldM_inv _ (fun cs => String.length (RepliesListing (fst cs)) < N)) in H;
    [exact H|exact Hwf| |exact Hc].
  clear -Hn. intros [key [raw v']] [c st] [c' st'] [Hraw _] Hc H. simpl in *.
  repeat (case_match; simplify_eq; simpl in *; try done); try lia.
Qed.

Section ListingInv.

Context {T : Type}.
Variable decode_T : nat -> json.Value -> T -> dstate -> dres T.
Variable zero_T : T.
Variable N : nat.
Variable P : T -> Prop.
Hypothesis P_zero : P zero_T.
Hypothesis P_decode : forall base v n x st x' st',
  wfv n v -> n <= N -> P x -> decode_T base v x st = inr (x', st') -> P x'.

Lemma decode_single_inv {X : Type} (PX : X -> Prop) name tyname
    (dec : json.Value -> X -> dstate -> dres X) v n x st x' st' :
  (forall v n x st x' st', wfv n v -> n <= N -> PX x -> dec v x st = inr (x', st') -> PX x') ->
  wfv n v -> n <= N -> PX x ->
  decode_single name tyname dec v x st = inr (x', st') -> PX x'.
Proof.
  intros Hdec Hwf Hn Hx H.
  destruct v; simpl in H; try (by simplify_eq).
  apply wfv_Object_inv in Hwf.
  eapply (foldM_inv _ (fun xs => PX (fst xs))) in H; [exact H|exact Hwf| |exact Hx].
  intros [key [raw v']] [y sy] [y' sy'] [Hraw Hv] Hy Hs. simpl in *.
  case_match; [|by simplify_eq].
  eapply Hdec; [exact Hv| lia |exact Hy|exact Hs].
Qed.

Lemma decode_Intermediary2_inv base v n x st x' st' :
  wfv n v -> n <= N -> P (Data2 x) ->
  decode_Intermediary2 decode_T base v x st = inr (x', st') -> P (Data2 x').
Proof.
  intros Hwf Hn Hx H.
  eapply (decode_single_inv (fun x => P (Data2 x))); [|exact Hwf|exact Hn|exact Hx|exact H].
  clear -P_decode. intros v n x st x' st' Hwf Hn Hx H.
  cbv beta in H.
  destruct (decode_T base v (Data2 x) st) as [e|[d s1]] eqn:Hd; simplify_eq. simpl.
  eapply P_decode; eauto.
Qed.

Lemma decode_Children_inv base v n old st cs st' :
  wfv n v -> n <= N -> Forall (fun x => P (Data2 x)) old ->
  decode_Children decode_T zero_T base v old st = inr (cs, st') ->
  Forall (fun x => P (Data2 x)) cs.
Proof.
  intros Hwf Hn Hold H.
  destruct v; simpl in H; simplify_eq; try done.
  apply wfv_Array_inv in Hwf.
  eapply (foldM_inv _ (fun xs => Forall (fun x => P (Data2 x)) (fst xs))) in H;
    [exact H|exact Hwf| |by constructor].
  intros [raw v'] [xs sx] [xs' sx'] [Hraw Hv] Hxs Hs. simpl in *.
  destruct (decode_Intermediary2 _ _ _ _ _) as [e|[x s1]] eqn:Hd; simplify_eq. simpl.
  apply Forall_app. split; [done|]. constructor; [|constructor].
  eapply decode_Intermediary2_inv; [exact Hv| lia | |exact Hd]. exact P_zero.
Qed.

Lemma decode_Listing_inv base v n x st x' st' :
  wfv n v -> n <= N -> Forall (fun x => P (Data2 x)) (Children (Data x)) ->
  decode_Listing decode_T zero_T base v x st = inr (x', st') ->
  Forall (fun x => P (Data2 x)) (Children (Data x')).
Proof.
  intros Hwf Hn Hx H.
  eapply (decode_single_inv (fun x => Forall (fun x => P (Data2 x)) (Children (Data x))));
    [|exact Hwf|exact Hn|exact Hx|exact H].
  clear -P_decode P_zero. intros v n x st x' st' Hwf Hn Hx H.
  cbv beta in H.
  destruct (decode_Intermediary1 _ _ _ _ _ _) as [e|[d s1]] eqn:Hd; simplify_eq. simpl.
  eapply (decode_single_inv (fun x => Forall (fun x => P (Data2 x)) (Children x)));
    [|exact Hwf|exact Hn|exact Hx|exact Hd].
  clear -P_decode P_zero. intros v n x st x' st' Hwf Hn Hx H.
  cbv beta in H.
  destruct (decode_Children _ _ _ _ _ _) as [e|[d s1]] eqn:Hd; simplify_eq. simpl.
  eapply decode_Children_inv; eauto.
Qed.

End ListingInv.

(** [json.Unmarshal] of a listing never exhausts the scanner's fuel. *)
Lemma Unmarshal_Listing_fuel {T} (dec : nat -> json.Value -> T -> dstate -> dres T) z base data :
  Unmarshal_Listing dec z base data <> json.PFuel.
Proof.
  unfold Unmarshal_Listing. pose proof (checkValid_ok data) as H.
  destruct (json.checkValid data) as [[raw v]| |]; [|done|done].
  repeat case_match; done.
Qed.

(** The replies of the comments of a decoded listing are shorter than the
    text the listing was decoded from. *)
Lemma Unmarshal_commentListing_shorter base data listing fresh :
  Unmarshal_commentListing base data = json.POk (listing, fresh) ->
  Forall (fun ch => String.length (RepliesListing (Data2 ch)) < String.length data)
         (Children (Data listing)).
Proof.
  unfold Unmarshal_commentListing, Unmarshal_Listing. intros H.
  pose proof (checkValid_ok data) as Hv.
  destruct (json.checkValid data) as [[raw v]| |]; [|done|done].
  destruct Hv as [Hraw Hwf].
  destruct (decode_Listing _ _ _ _ _ _) as [e|[x st]] eqn:Hd; [done|].
  destruct (d_saved st); simplify_eq.
  eapply (decode_Listing_inv decode_CommentResponse zero_CommentResponse (String.length data)
            (fun c => String.length (RepliesListing c) < String.length data));
    [| |exact Hwf| | |exact Hd].
  - simpl. lia.
  - intros. eapply decode_CommentResponse_RepliesListing; eauto.
  - lia.
  - constructor.
Qed.

(** * The heap across a call of DecodeReplies *)

Lemma range_var_spec lv var h n0 h1 comment :
  n0 <= length h ->
  (forall a, var = Some a -> n0 <= a < length h) ->
  range_var lv var h = (h1, comment) ->
  n0 <= comment < length h1 /\ length h <= length h1 /\
  (forall a, a < length h -> h1 !! a = h !! a) /\
  (lv = PerLoop -> forall a, var = Some a -> comment = a).
Proof.
  intros Hn Hvar H. unfold range_var in H.
  assert (Hext : forall h0 : heap, forall a, a < length h0 ->
            (h0 ++ [zero_CommentResponse])%list !! a = h0 !! a).
  { intros h0 a Ha. by rewrite lookup_app_l. }
  destruct lv; destruct var as [a|]; injection H as <- <-;
    rewrite ?length_app; simpl; repeat split; auto; try lia; try done.
  - by apply (Hvar a).
  - by apply (Hvar a).
  - congruence.
Qed.

Lemma range_Children_spec lv decode :
  call_spec decode ->
  forall children n0 p var h h' e c,
    p < n0 -> n0 <= length h -> h !! p = Some c ->
    (forall a, var = Some a -> n0 <= a < length h) ->
    range_Children lv decode p var children h = Returns (h', e) ->
    length h <= length h' /\
    (forall a, a < n0 -> a <> p -> h' !! a = h !! a) /\
    exists c', h' !! p = Some c' /\ scalars c' = scalars c /\
      RepliesListing c' = RepliesListing c /\
      exists new, Replies c' = (Replies c ++ new)%list
                  /\ (e = None -> length new = length children).
Proof.
  intros Hdec. induction children as [|child rest IH]; intros n0 p var h h' e c Hp Hn Hc Hvar H.
  - simpl in H. simplify_eq. split; [lia|]. split; [done|].
    exists c. repeat split; auto. exists []. by rewrite app_nil_r.
  - simpl in H.
    destruct (range_var lv var h) as [h1 comment] eqn:Hrv.
    apply (range_var_spec _ _ _ n0) in Hrv as (Hcm & Hlen1 & Hsame1 & _); [|done|done].
    set (h2 := <[comment := Data2 child]> h1) in *.
    set (h3 := alter (append_Replies (Some comment)) p h2) in *.
    assert (Hlen3 : length h3 = length h1).
    { unfold h3, h2. by rewrite length_alter, length_insert. }
    assert (Hp3 : h3 !! p = Some (append_Replies (Some comment) c)).
    { unfold h3. rewrite list_lookup_alter_eq. unfold h2.
      rewrite list_lookup_insert_ne by lia. rewrite Hsame1 by lia. by rewrite Hc. }
    assert (Hother3 : forall a, a < n0 -> a <> p -> h3 !! a = h !! a).
    { intros a Ha Hap. unfold h3, h2.
      rewrite list_lookup_alter_ne by done. rewrite list_lookup_insert_ne by lia.
      apply Hsame1. lia. }
    destruct (decode h3 comment) as [[h4 e4]| |] eqn:Hd; [|done|done].
    apply Hdec in Hd as (cc & cc' & Hcc & Hcc' & Hlen4 & Hother4 & _).
    assert (Hp4 : h4 !! p = Some (append_Replies (Some comment) c)).
    { rewrite Hother4; [done| lia | lia]. }
    destruct e4 as [err|].
    + simplify_eq. split; [lia|]. split.
      * intros a Ha Hap. rewrite Hother4 by lia. by apply Hother3.
      * eexists. split; [exact Hp4|]. simpl. repeat split; auto.
        eexists. split; [reflexivity|done].
    + eapply (IH n0) in H as (Hlen' & Hother' & c' & Hc' & Hsc & Hrl & new & Hnew & Hcount);
        [|done|lia|exact Hp4|intros a ?; simplify_eq; lia].
      split; [lia|]. split.
      * intros a Ha Hap. rewrite Hother' by done. rewrite Hother4 by lia. by apply Hother3.
      * exists c'. simpl in *. repeat split; auto.
        exists (Some comment :: new). rewrite Hnew. rewrite <- app_assoc. split; [done|].
        intros He. simpl. by rewrite Hcount.
Qed.

Lemma DecodeReplies_spec lv fuel : call_spec (DecodeReplies lv fuel).
Proof.
  induction fuel as [|fuel IH]; intros h p h' e H; simpl in H; [done|].
  destruct (h !! p) as [pc|] eqn:Hpc; [|done].
  assert (Hp : p < length h) by (apply lookup_lt_is_Some; eauto).
  destruct (String.eqb _ _).
  { simplify_eq. exists pc, (set_RepliesListing "" pc).
    rewrite list_lookup_alter_eq, Hpc, length_alter. simpl.
    repeat split; auto; try done.
    - intros a _ Ha. by rewrite list_lookup_alter_ne.
    - exists []. by rewrite app_nil_r. }
  destruct (Unmarshal_commentListing _ _) as [[listing fresh]|err|]; [| |done].
  - destruct (range_Children _ _ _ _ _ _) as [[h1 e1]| |] eqn:Hr; [|done|done].
    eapply (range_Children_spec _ _ IH _ (length h)) in Hr
      as (Hlen & Hother & c' & Hc' & Hsc & Hrl & new & Hnew & _);
      [|done|rewrite length_app; lia|by rewrite lookup_app_l|done].
    rewrite length_app in Hlen.
    assert (Hother' : forall a, a < length h -> a <> p -> h1 !! a = h !! a).
    { intros a Ha Hap. rewrite Hother by done. by rewrite lookup_app_l. }
    destruct e1 as [err|]; simplify_eq.
    + exists pc, c'. repeat split; auto; try lia; try done. by exists new.
    + exists pc, (set_RepliesListing "" c').
      rewrite list_lookup_alter_eq, Hc', length_alter. simpl.
      repeat split; auto; try lia; try done.
      * intros a Ha Hap. rewrite list_lookup_alter_ne by done. by apply Hother'.
      * by exists new.
  - simplify_eq. exists pc, pc. repeat split; auto; try done.
    exists []. by rewrite app_nil_r.
Qed.

(** * Enough fuel *)

Lemma range_Children_returns lv decode fuel :
  call_spec decode ->
  (forall h p c, h !! p = Some c -> String.length (RepliesListing c) < fuel ->
     exists h' e, decode h p = Returns (h', e)) ->
  forall children n0 p var h,
    p < n0 -> n0 <= length h ->
    (forall a, var = Some a -> n0 <= a < length h) ->
    Forall (fun ch => String.length (RepliesListing (Data2 ch)) < fuel) children ->
    exists h' e, range_Children lv decode p var children h = Returns (h', e).
Proof.
  intros Hspec Hret. induction children as [|child rest IH]; intros n0 p var h Hp Hn Hvar Hall.
  - simpl. eauto.
  - simpl. apply Forall_cons in Hall as [Hch Hall].
    destruct (range_var lv var h) as [h1 comment] eqn:Hrv.
    apply (range_var_spec _ _ _ n0) in Hrv as (Hcm & Hlen1 & Hsame1 & _); [|done|done].
    set (h3 := alter _ p (<[comment := Data2 child]> h1)).
    assert (Hlen3 : length h3 = length h1).
    { unfold h3. by rewrite length_alter, length_insert. }
    assert (Hc3 : h3 !! comment = Some (Data2 child)).
    { unfold h3. rewrite list_lookup_alter_ne by lia.
      apply list_lookup_insert_eq. lia. }
    destruct (Hret _ _ _ Hc3 Hch) as (h4 & e4 & Hd). rewrite Hd.
    apply Hspec in Hd as (_ & _ & _ & _ & Hlen4 & _).
    destruct e4 as [err|]; [eauto|].
    apply (IH n0); auto; try lia. intros a ?; simplify_eq. lia.
Qed.

(** A call returns as soon as the fuel exceeds the length of the replies. *)
Lemma DecodeReplies_returns lv fuel :
  forall h p c, h !! p = Some c -> String.length (RepliesListing c) < fuel ->
    exists h' e, DecodeReplies lv fuel h p = Returns (h', e).
Proof.
  induction fuel as [|fuel IH]; intros h p c Hc Hf; [lia|].
  simpl. rewrite Hc.
  assert (Hp : p < length h) by (apply lookup_lt_is_Some; eauto).
  destruct (String.eqb _ _); [eauto|].
  destruct (Unmarshal_commentListing _ _) as [[listing fresh]|err|] eqn:Hu; [|eauto|].
  - apply Unmarshal_commentListing_shorter in Hu.
    destruct (range_Children_returns lv (DecodeReplies lv fuel) fuel (DecodeReplies_spec lv fuel) IH
                (Children (Data listing)) (length h) p None (h ++ fresh)%list)
      as (h1 & e1 & Hr); auto.
    + rewrite length_app. lia.
    + done.
    + eapply Forall_impl; [exact Hu|]. simpl. intros. lia.
    + rewrite Hr. destruct e1; eauto.
  - by apply Unmarshal_Listing_fuel in Hu.
Qed.

(** * The loop of RequestPostJSON *)

Lemma range_comments_spec lv fuel :
  forall children var comments h h' r,
    (forall a, var = Some a -> a < length h) ->
    range_comments lv fuel var children comments h = Returns (h', r) ->
    match r with
    | inl cs => exists new, cs = (comments ++ new)%list /\ Forall2 attached new children
    | inr err => first_failure lv fuel var children comments h err
    end.
Proof.
  induction children as [|child rest IH]; intros var comments h h' r Hvar H.
  - simpl in H. simplify_eq. exists []. split; [by rewrite app_nil_r|constructor].
  - simpl in H.
    destruct (range_var lv var h) as [h1 comment] eqn:Hrv.
    pose proof Hrv as Hrv'.
    apply (range_var_spec _ _ _ 0) in Hrv' as (Hcm & Hlen1 & Hsame1 & _);
      [|lia|intros a Ha; specialize (Hvar a Ha); lia].
    set (h2 := <[comment := Data2 child]> h1) in *.
    assert (Hc2 : h2 !! comment = Some (Data2 child)).
    { unfold h2. apply list_lookup_insert_eq. lia. }
    destruct (DecodeReplies lv fuel h2 comment) as [[h3 e3]| |] eqn:Hd; [|done|done].
    pose proof Hd as Hd'.
    apply DecodeReplies_spec in Hd' as (c & c' & Hc & Hc' & Hlen3 & _ & Hsc & Hok & _).
    rewrite Hc2 in Hc. simplify_eq.
    destruct e3 as [err|].
    + simplify_eq. exists [], child, rest, h, comments, h2, comment, h'.
      repeat split; auto.
    + rewrite Hc' in H. simpl in H.
      apply IH in H; [|intros a ?; simplify_eq; unfold h2 in Hlen3;
                       rewrite length_insert in Hlen3; lia].
      destruct r as [cs|err].
      * destruct H as (new & -> & Hall). exists (c' :: new).
        rewrite <- app_assoc. split; [done|]. constructor; [|done].
        split; [done|]. by apply Hok.
      * destruct H as (pre & ch & post & hpre & cs & hk & a & hk' & -> & Hpre & Hk & Hfail).
        exists (child :: pre), ch, post, hpre, cs, hk, a, hk'.
        repeat split; auto. simpl. rewrite Hrv. fold h2. rewrite Hd, Hc'. exact Hpre.
Qed.

Lemma range_comments_returns lv fuel :
  forall children var comments h,
    (forall a, var = Some a -> a < length h) ->
    Forall (fun ch => String.length (RepliesListing (Data2 ch)) < fuel) children ->
    exists h' r, range_comments lv fuel var children comments h = Returns (h', r).
Proof.
  induction children as [|child rest IH]; intros var comments h Hvar Hall.
  - simpl. eauto.
  - simpl. apply Forall_cons in Hall as [Hch Hall].
    destruct (range_var lv var h) as [h1 comment] eqn:Hrv.
    apply (range_var_spec _ _ _ 0) in Hrv as (Hcm & Hlen1 & Hsame1 & _);
      [|lia|intros a Ha; specialize (Hvar a Ha); lia].
    set (h2 := <[comment := Data2 child]> h1) in *.
    assert (Hc2 : h2 !! comment = Some (Data2 child)).
    { unfold h2. apply list_lookup_insert_eq. lia. }
    destruct (DecodeReplies_returns lv fuel _ _ _ Hc2 Hch) as (h3 & e3 & Hd). rewrite Hd.
    apply DecodeReplies_spec in Hd as (_ & _ & _ & _ & Hlen3 & _).
    destruct e3 as [err|]; [eauto|].
    apply IH; [|done]. intros a ?; simplify_eq.
    unfold h2 in Hlen3. rewrite length_insert in Hlen3. lia.
Qed.

(** * The elements of the top-level array *)

Lemma decodeJSON_arrays_fuel body : decodeJSON_arrays body <> json.PFuel.
Proof.
  unfold decodeJSON_arrays. pose proof (first_value_ok body) as H.
  destruct (json.skip_space body); [done|].
  destruct (json.first_value body) as [[[raw v] r]| |]; [| |done].
  - destruct v; done.
  - repeat case_match; done.
Qed.

Lemma decodeJSON_arrays_shorter body arrays :
  decodeJSON_arrays body = json.POk arrays ->
  Forall (fun a => String.length a < String.length body) arrays.
Proof.
  unfold decodeJSON_arrays. intros H. pose proof (first_value_ok body) as Hv.
  destruct (json.skip_space body); [done|].
  destruct (json.first_value body) as [[[raw v] r]| |]; [| |done].
  - destruct Hv as [Hraw Hwf].
    destruct v; simplify_eq; [constructor|].
    apply wfv_Array_inv in Hwf. apply Forall_fmap.
    eapply Forall_impl; [exact Hwf|]. simpl. intros el [? _]. lia.
  - repeat case_match; done.
Qed.

Lemma RequestPostJSON_run lv fuel body arrays a0 a1 posts h0 first rest :
  decodeJSON_arrays body = json.POk arrays ->
  arrays !! 0 = Some a0 ->
  arrays !! 1 = Some a1 ->
  Unmarshal_postListing 0 a0 = json.POk (posts, h0) ->
  Children (Data posts) = first :: rest ->
  String.length body < fuel ->
  exists h r, RequestPostJSON lv fuel (inr body) = Returns (h, r) /\ assembled lv fuel h0 a1 first r.
Proof.
  intros Harr H0 H1 Hposts Hch Hfuel.
  unfold RequestPostJSON, assembled. rewrite Harr, H0, Hposts, Hch, H1. simpl.
  apply decodeJSON_arrays_shorter in Harr.
  assert (Ha1 : String.length a1 < String.length body).
  { eapply Forall_lookup_1 in Harr; [exact Harr|exact H1]. }
  destruct (Unmarshal_commentListing (length h0) a1) as [[cl fresh]|e1|] eqn:Hu.
  - apply Unmarshal_commentListing_shorter in Hu.
    destruct (range_comments_returns lv fuel (Children (Data cl)) None [] (h0 ++ fresh)%list)
      as (h' & r & Hr); [done| |].
    { eapply Forall_impl; [exact Hu|]. simpl. intros. lia. }
    rewrite Hr. pose proof Hr as Hr'.
    apply range_comments_spec in Hr'; [|done].
    destruct r as [cs|err].
    + destruct Hr' as (new & -> & Hall). simpl in *.
      eexists _, _. split; [reflexivity|]. left. eexists. split; [reflexivity|]. done.
    + eexists _, _. split; [reflexivity|]. right. eauto.
  - eauto.
  - by apply Unmarshal_Listing_fuel in Hu.
Qed.


(** * One address for every child, one variable per loop *)

Lemma range_Children_PerLoop decode :
  call_spec decode ->
  forall children n0 p q h h' e c,
    p < n0 -> n0 <= q < length h -> h !! p = Some c ->
    range_Children PerLoop decode p (Some q) children h = Returns (h', e) ->
    exists c' k, h' !! p = Some c' /\
      Replies c' = (Replies c ++ replicate k (Some q))%list /\
      (e = None -> k = length children).
Proof.
  intros Hdec. induction children as [|child rest IH]; intros n0 p q h h' e c Hp Hq Hc H.
  - simpl in H. simplify_eq. exists c, 0. simpl. by rewrite app_nil_r.
  - simpl in H.
    set (h3 := alter (append_Replies (Some q)) p (<[q := Data2 child]> h)) in *.
    assert (Hlen3 : length h3 = length h).
    { unfold h3. by rewrite length_alter, length_insert. }
    assert (Hp3 : h3 !! p = Some (append_Replies (Some q) c)).
    { unfold h3. rewrite list_lookup_alter_eq.
      rewrite list_lookup_insert_ne by lia. by rewrite Hc. }
    destruct (decode h3 q) as [[h4 e4]| |] eqn:Hd; [|done|done].
    apply Hdec in Hd as (cc & cc' & Hcc & Hcc' & Hlen4 & Hother4 & _).
    assert (Hp4 : h4 !! p = Some (append_Replies (Some q) c)).
    { rewrite Hother4; [done| lia | lia]. }
    destruct e4 as [err|].
    + simplify_eq. exists (append_Replies (Some q) c), 1. simpl. done.
    + eapply (IH n0) in H as (c' & k & Hc' & Hrep & Hk); [|done|lia|exact Hp4].
      exists c', (S k). split; [done|]. simpl in *. rewrite Hrep, <- app_assoc.
      split; [done|]. intros He. by rewrite Hk.
Qed.

(** X3. Up to Go 1.21 every pointer that one call of [DecodeReplies] appends
    is the address of the one range variable of that call. *)
Lemma DecodeReplies_PerLoop_one_address fuel h p c h' e :
  h !! p = Some c ->
  DecodeReplies PerLoop fuel h p = Returns (h', e) ->
  exists c' q k, h' !! p = Some c' /\ Replies c' = (Replies c ++ replicate k (Some q))%list.
Proof.
  intros Hc H. destruct fuel as [|fuel]; [done|]. simpl in H. rewrite Hc in H.
  assert (Hp : p < length h) by (apply lookup_lt_is_Some; eauto).
  destruct (String.eqb _ _).
  { simplify_eq. exists (set_RepliesListing "" c), 0, 0.
    rewrite list_lookup_alter_eq, Hc. simpl. by rewrite app_nil_r. }
  destruct (Unmarshal_commentListing _ _) as [[listing fresh]|err|]; [| |done].
  - destruct (Children (Data listing)) as [|child rest].
    { simpl in H. simplify_eq. exists (set_RepliesListing "" c), 0, 0.
      rewrite list_lookup_alter_eq, lookup_app_l, Hc by done. simpl. by rewrite app_nil_r. }
    destruct (range_Children _ _ _ _ _ _) as [[h1 e1]| |] eqn:Hr; [|done|done].
    set (q := length (h ++ fresh)%list) in *.
    set (h3 := alter (append_Replies (Some q)) p
                 (<[q := Data2 child]> ((h ++ fresh) ++ [zero_CommentResponse]))%list).
    assert (Hq : length h <= q) by (unfold q; rewrite length_app; lia).
    assert (Hlen3 : length h3 = S q).
    { unfold h3. rewrite length_alter, length_insert, length_app. simpl. unfold q. lia. }
    assert (Hp3 : h3 !! p = Some (append_Replies (Some q) c)).
    { unfold h3. rewrite list_lookup_alter_eq.
      rewrite list_lookup_insert_ne by lia.
      rewrite lookup_app_l by (rewrite length_app; lia).
      rewrite lookup_app_l by done. by rewrite Hc. }
    simpl in Hr. fold q in Hr. fold h3 in Hr.
    destruct (DecodeReplies PerLoop fuel h3 q) as [[h4 e4]| |] eqn:Hd; [|done|done].
    apply DecodeReplies_spec in Hd as (cc & cc' & Hcc & Hcc' & Hlen4 & Hother4 & _).
    assert (Hp4 : h4 !! p = Some (append_Replies (Some q) c)).
    { rewrite Hother4; [done| lia | lia]. }
    assert (Hfin : exists c1 k, h1 !! p = Some c1 /\
                     Replies c1 = (Replies c ++ replicate k (Some q))%list).
    { destruct e4 as [err|].
      - simplify_eq. exists (append_Replies (Some q) c), 1. done.
      - eapply (range_Children_PerLoop _ (DecodeReplies_spec PerLoop fuel) _ (length h)) in Hr
          as (c1 & k & Hc1 & Hrep & _); [|done|lia|exact Hp4].
        exists c1, (S k). split; [done|]. simpl in *. by rewrite Hrep, <- app_assoc. }
    destruct Hfin as (c1 & k & Hc1 & Hrep).
    destruct e1 as [err|]; simplify_eq.
    + by exists c1, q, k.
    + exists (set_RepliesListing "" c1), q, k.
      rewrite list_lookup_alter_eq, Hc1. done.
  - simplify_eq. exists c, 0, 0. by rewrite app_nil_r.
Qed.

(** X4. On success a call appends one pointer for every child of the nested
    listing, whatever the meaning of the range variable. *)
Lemma DecodeReplies_child_count lv fuel h p c h' listing fresh :
  h !! p = Some c ->
  RepliesListing c <> empty_string_literal ->
  Unmarshal_commentListing (length h) (RepliesListing c) = json.POk (listing, fresh) ->
  DecodeReplies lv fuel h p = Returns (h', None) ->
  exists c', h' !! p = Some c' /\
    length (Replies c') = length (Replies c) + length (Children (Data listing)).
Proof.
  intros Hc Hne Hu H. destruct fuel as [|fuel]; [done|]. simpl in H. rewrite Hc, Hu in H.
  assert (Hp : p < length h) by (apply lookup_lt_is_Some; eauto).
  destruct (String.eqb _ _) eqn:Heq; [by apply String.eqb_eq in Heq|].
  destruct (range_Children _ _ _ _ _ _) as [[h1 e1]| |] eqn:Hr; [|done|done].
  eapply (range_Children_spec _ _ (DecodeReplies_spec lv fuel) _ (length h)) in Hr
    as (_ & _ & c' & Hc' & _ & _ & new & Hnew & Hcount);
    [|done|rewrite length_app; lia|by rewrite lookup_app_l|done].
  destruct e1; simplify_eq.
  exists (set_RepliesListing "" c'). rewrite list_lookup_alter_eq, Hc'. split; [done|].
  simpl. rewrite Hnew, length_app, Hcount; done.
Qed.

Lemma alter_insert (f : CommentResponse -> CommentResponse) (h : heap) p c :
  h !! p = Some c -> alter f p h = <[p := f c]> h.
Proof.
  intros Hc. apply list_eq. intros i.
  destruct (decide (i = p)) as [->|Hne].
  - rewrite list_lookup_alter_eq, Hc. simpl. symmetry. apply list_lookup_insert_eq.
    apply lookup_lt_is_Some. eauto.
  - by rewrite list_lookup_alter_ne, list_lookup_insert_ne.
Qed.

(** * Envelopes *)

Lemma foldM_id {A S : Type} (f : A -> S -> error + S) (Q : A -> Prop) l s :
  Forall Q l -> (forall a, Q a -> f a s = inr s) -> foldM f l s = inr s.
Proof.
  intros HQ Hf. induction HQ as [|a l Ha _ IH]; simpl; [done|].
  by rewrite (Hf a Ha).
Qed.

Lemma decode_Listing_childless {T} (dec : nat -> json.Value -> T -> dstate -> dres T) z base ms st :
  childless ms ->
  decode_Listing dec z base (json.Object ms) zero_Listing st = inr (zero_Listing, st).
Proof.
  intros Hms. unfold decode_Listing, decode_single.
  apply (foldM_id _ _ _ _ Hms).
  intros [key [raw v]] Hm. simpl in *.
  destruct Hm as [->|[->|(ms' & -> & Hms')]]; [done| |].
  - by destruct (json.find_field _ _).
  - destruct (json.find_field _ _); [|done].
    unfold decode_Intermediary1, decode_single. simpl.
    rewrite (foldM_id _ _ _ (mkI1 [], st) Hms'); [done|].
    intros [k' [r' v']] Hk. simpl in *. by rewrite Hk.
Qed.


(** * FloatTime.UnmarshalJSON *)

(** Whatever [strconv.ParseBool] accepts leaves the receiver as it is. *)
Lemma UnmarshalJSON_ParseBool ft data b :
  strconv.ParseBool data = inl b -> UnmarshalJSON ft data = (ft, None).
Proof. intros H. unfold UnmarshalJSON. by rewrite H. Qed.

(** C8. The bytes [1622548800.0] decode to Unix second 1622548800, the
    bytes [false] leave the zero time without an error, and the bytes of
    the JSON string not-a-number are refused with the error of the float
    parser, which names the offending bytes. *)
Theorem UnmarshalJSON_examples :
  UnmarshalJSON time.zero "1622548800.0" = (time.Unix 1622548800, None)
  /\ time.to_unix (time.Unix 1622548800) = 1622548800%Z
  /\ UnmarshalJSON time.zero "false" = (time.zero, None)
  /\ UnmarshalJSON time.zero (json_text "'not-a-number'")
     = (time.zero,
        Some (FailedToParseFloat (strconv.syntaxError "ParseFloat" (json_text "'not-a-number'")))).
Proof. split; [|split; [|split]]; vm_compute; reflexivity. Qed.

(** C5. The numeric literal [1] is one of the spellings that
    [strconv.ParseBool] accepts, so the codec returns before it reaches the
    float parser and the receiver stays at the zero time; the float parser
    would have read it as Unix second 1, which is another time. *)
Theorem UnmarshalJSON_numeric_literal_one :
  UnmarshalJSON time.zero "1" = (time.zero, None)
  /\ strconv.ParseBool "1" = inl true
  /\ (exists ts, strconv.ParseFloat "1" = inl ts
                 /\ time.Unix (int64_of_float64 ts) = time.Unix 1)
  /\ time.zero <> time.Unix 1.
Proof.
  split; [vm_compute; reflexivity|].
  split; [vm_compute; reflexivity|].
  split.
  - exists (S754_finite false 4503599627370496 (-52)).
    split; vm_compute; reflexivity.
  - intros H. apply (f_equal time.loc) in H. discriminate H.
Qed.

(** * DecodeReplies *)

(** C6. On a comment whose [RepliesListing] is the two-byte empty-string
    literal the call succeeds with any fuel from 1 on, which leaves no room
    for a recursive call; it changes nothing in the heap but the buffer of
    the comment, so no child is appended: the [Replies] are what they were,
    empty for a comment as it comes out of the decoder. *)
Theorem DecodeReplies_empty_string_literal lv fuel (h : heap) p c :
  h !! p = Some c ->
  RepliesListing c = empty_string_literal ->
  DecodeReplies lv (S fuel) h p
    = Returns (<[p := mkComment (scalars c) "" (Replies c)]> h, None)
  /\ (Replies c = [] ->
      Replies <$> (<[p := mkComment (scalars c) "" (Replies c)]> h) !! p = Some []).
Proof.
  intros Hc Hrl. split.
  - simpl. rewrite Hc, Hrl. rewrite String.eqb_refl.
    by rewrite (alter_insert _ _ _ _ Hc).
  - intros Hr. rewrite list_lookup_insert_eq by (apply lookup_lt_is_Some; eauto).
    simpl. by rewrite Hr.
Qed.

Lemma DecodeReplies_empty_string_literal_witness :
  [ex_leaf] !! 0 = Some ex_leaf
  /\ RepliesListing ex_leaf = empty_string_literal
  /\ (DecodeReplies PerLoop 1 [ex_leaf] 0
        = Returns (<[0 := mkComment (scalars ex_leaf) "" (Replies ex_leaf)]> [ex_leaf], None)
      /\ (Replies ex_leaf = [] ->
          Replies <$> (<[0 := mkComment (scalars ex_leaf) "" (Replies ex_leaf)]> [ex_leaf]) !! 0
          = Some [])).
Proof.
  split; [reflexivity|]. split; [reflexivity|].
  apply (DecodeReplies_empty_string_literal PerLoop 0 [ex_leaf] 0 ex_leaf); reflexivity.
Defined.

(** C7. When a call returns, the buffer of the comment it was called on is
    empty if the call succeeded and holds its original bytes if the call
    returned an error, at whatever depth the error arose. *)
Theorem DecodeReplies_releases_buffer_on_success_only lv fuel (h : heap) p c h' e :
  h !! p = Some c ->
  DecodeReplies lv fuel h p = Returns (h', e) ->
  exists c', h' !! p = Some c'
    /\ (e = None -> RepliesListing c' = "")
    /\ (e <> None -> RepliesListing c' = RepliesListing c).
Proof.
  intros Hc H.
  apply DecodeReplies_spec in H as (c0 & c' & Hc0 & Hc' & _ & _ & _ & Hok & Herr & _).
  rewrite Hc in Hc0. simplify_eq. eauto.
Qed.

Lemma DecodeReplies_releases_buffer_on_success_only_witness :
  [ex_failing] !! 0 = Some ex_failing
  /\ DecodeReplies PerLoop 3 [ex_failing] 0 = Returns (ex_failed, Some (SyntaxError UnexpectedEnd))
  /\ exists c', ex_failed !! 0 = Some c'
       /\ (Some (SyntaxError UnexpectedEnd) = None -> RepliesListing c' = "")
       /\ (Some (SyntaxError UnexpectedEnd) <> None -> RepliesListing c' = RepliesListing ex_failing).
Proof.
  split; [reflexivity|]. split; [vm_compute; reflexivity|].
  apply (DecodeReplies_releases_buffer_on_success_only PerLoop 3 [ex_failing] 0 ex_failing
           ex_failed (Some (SyntaxError UnexpectedEnd)));
    [reflexivity | vm_compute; reflexivity].
Defined.

(** C10. On a comment whose buffer has length zero, because the payload had
    no [replies] member or because an earlier call succeeded and emptied it,
    the call returns the error of [json.Unmarshal] on an empty input and
    leaves the heap as it is; a second call after a success therefore fails. *)
Theorem DecodeReplies_zero_length_buffer lv fuel (h : heap) p c :
  h !! p = Some c ->
  (RepliesListing c = "" \/ exists fuel0 h0, DecodeReplies lv fuel0 h0 p = Returns (h, None)) ->
  DecodeReplies lv (S fuel) h p = Returns (h, Some (SyntaxError UnexpectedEnd)).
Proof.
  intros Hc Hz.
  assert (Hrl : RepliesListing c = "").
  { destruct Hz as [Hz|(fuel0 & h0 & H0)]; [done|].
    apply DecodeReplies_spec in H0 as (_ & c' & _ & Hc' & _ & _ & _ & Hok & _).
    rewrite Hc in Hc'. simplify_eq. by apply Hok. }
  simpl. rewrite Hc, Hrl. reflexivity.
Qed.

Lemma DecodeReplies_zero_length_buffer_witness :
  ex_decoded !! 0 = Some (mkComment (zero_scalars CommentResponse_fields) "" [Some 1; Some 1])
  /\ (RepliesListing (mkComment (zero_scalars CommentResponse_fields) "" [Some 1; Some 1]) = ""
      \/ exists fuel0 h0, DecodeReplies PerLoop fuel0 h0 0 = Returns (ex_decoded, None))
  /\ DecodeReplies PerLoop 1 ex_decoded 0 = Returns (ex_decoded, Some (SyntaxError UnexpectedEnd)).
Proof.
  assert (H : exists fuel0 h0, DecodeReplies PerLoop fuel0 h0 0 = Returns (ex_decoded, None)).
  { exists 3, [ex_parent]. vm_compute. reflexivity. }
  split; [reflexivity|]. split; [right; exact H|].
  apply (DecodeReplies_zero_length_buffer PerLoop 0 ex_decoded 0
           (mkComment (zero_scalars CommentResponse_fields) "" [Some 1; Some 1]));
    [reflexivity | right; exact H].
Defined.

(** C3. A comment whose nested listing holds the two comments A and B: after
    a successful call its [Replies] has two entries, and both are the address
    1, the one record that the range variable of the loop occupies. *)
Theorem DecodeReplies_children_share_one_record :
  DecodeReplies PerLoop 3 [ex_parent] 0 = Returns (ex_decoded, None)
  /\ length ex_decoded = 2
  /\ Replies <$> ex_decoded !! 0 = Some [Some 1; Some 1].
Proof. split; [|split]; vm_compute; reflexivity. Qed.

(** C4. For the same comment the nested listing decodes to the children A
    and B in this order; the call appends two pointers, as many as there are
    children, but the records they lead to both read B. *)
Theorem DecodeReplies_children_repeat_the_last :
  Unmarshal_commentListing 1 ex_replies = json.POk (ex_listing, [])
  /\ map (fun ch => Body (Data2 ch)) (Children (Data ex_listing))
     = [Some (VString "A"); Some (VString "B")]
  /\ DecodeReplies PerLoop 3 [ex_parent] 0 = Returns (ex_decoded, None)
  /\ exists c', ex_decoded !! 0 = Some c'
       /\ length (Replies c') = length (Children (Data ex_listing))
       /\ map (fun o => o ≫= Body) (deref ex_decoded (Replies c'))
          = [Some (VString "B"); Some (VString "B")].
Proof.
  split; [vm_compute; reflexivity|]. split; [vm_compute; reflexivity|].
  split; [vm_compute; reflexivity|].
  eexists. split; [vm_compute; reflexivity|]. split; vm_compute; reflexivity.
Qed.

(** With a variable per iteration (Go 1.22) the same call yields two
    records, A and B in this order. *)
Remark DecodeReplies_children_go_1_22 :
  DecodeReplies PerIteration 3 [ex_parent] 0 = Returns (ex_decoded_1_22, None)
  /\ exists c', ex_decoded_1_22 !! 0 = Some c'
       /\ Replies c' = [Some 1; Some 2]
       /\ map (fun o => o ≫= Body) (deref ex_decoded_1_22 (Replies c'))
          = [Some (VString "A"); Some (VString "B")].
Proof.
  split; [vm_compute; reflexivity|].
  eexists. split; [vm_compute; reflexivity|]. split; vm_compute; reflexivity.
Qed.


(** * Envelope unwrapping *)

Lemma Unmarshal_Listing_childless {T} (dec : nat -> json.Value -> T -> dstate -> dres T)
    z base data raw ms :
  json.checkValid data = json.POk (raw, json.Object ms) ->
  childless ms ->
  Unmarshal_Listing dec z base data = json.POk (zero_Listing, []).
Proof.
  intros Hv Hms. unfold Unmarshal_Listing. rewrite Hv.
  by rewrite (decode_Listing_childless dec z base ms _ Hms).
Qed.

(** C2, as the claim has it: the bytes of an envelope whose [data] has no
    [children] are not refused, they decode to the empty listing. *)
Lemma Unmarshal_commentListing_data_without_children :
  Unmarshal_commentListing 0 ex_no_children = json.POk (zero_Listing, []).
Proof. vm_compute. reflexivity. Qed.

(** C2, amended. The keys are optional: an object in which every member is
    either not [data], or a [data] that is [null] or an object without
    [children], decodes to the empty listing without an error, and so does
    the envelope with an empty [children] array. *)
Theorem Unmarshal_commentListing_keys_optional base data raw ms :
  json.checkValid data = json.POk (raw, json.Object ms) ->
  childless ms ->
  Unmarshal_commentListing base data = json.POk (zero_Listing, [])
  /\ Unmarshal_commentListing base (json_text "{'data':{'children':[]}}")
     = json.POk (zero_Listing, []).
Proof.
  intros Hv Hms. split.
  - by apply (Unmarshal_Listing_childless _ _ _ _ raw ms).
  - reflexivity.
Qed.

Lemma Unmarshal_commentListing_keys_optional_witness :
  json.checkValid ex_no_children = json.POk (ex_no_children, json.Object ex_no_children_members)
  /\ childless ex_no_children_members
  /\ (Unmarshal_commentListing 0 ex_no_children = json.POk (zero_Listing, [])
      /\ Unmarshal_commentListing 0 (json_text "{'data':{'children':[]}}")
         = json.POk (zero_Listing, [])).
Proof.
  assert (Hc : childless ex_no_children_members).
  { constructor; [|constructor]. right. right. exists []. split; [reflexivity|constructor]. }
  split; [vm_compute; reflexivity|]. split; [exact Hc|].
  apply (Unmarshal_commentListing_keys_optional 0 ex_no_children ex_no_children
           ex_no_children_members); [vm_compute; reflexivity | exact Hc].
Defined.

(** * RequestPostJSON *)

(** C1, as the claim has it: element 0 holds two posts, and the call returns
    a post, the first of the two, and no error. *)
Lemma RequestPostJSON_two_posts :
  Unmarshal_postListing 0 (default "" (ex_two_posts_arrays !! 0))
    = json.POk (ex_two_posts_listing, [])
  /\ length (Children (Data ex_two_posts_listing)) = 2
  /\ exists h p, RequestPostJSON PerLoop 200 (inr ex_two_posts) = Returns (h, (Some p, None))
       /\ post_field p "ID" = Some (VString "p1")
       /\ length (post_Replies p) = 1.
Proof.
  split; [vm_compute; reflexivity|]. split; [reflexivity|].
  eexists _, _. split; [vm_compute; reflexivity|]. split; vm_compute; reflexivity.
Qed.

(** C1, amended. Once element 0 has decoded to a listing with a child at
    index 0, that child is the post, however many children follow it: the
    call returns the post with the comments of element 1 attached, or the
    error of element 1 or of a comment's replies, never an error about the
    number of children. *)
Theorem RequestPostJSON_takes_first_child lv fuel body arrays a0 a1 posts (h0 : heap) first :
  decodeJSON_arrays body = json.POk arrays ->
  arrays !! 0 = Some a0 ->
  arrays !! 1 = Some a1 ->
  Unmarshal_postListing 0 a0 = json.POk (posts, h0) ->
  Children (Data posts) !! 0 = Some first ->
  String.length body < fuel ->
  exists h r, RequestPostJSON lv fuel (inr body) = Returns (h, r)
              /\ assembled lv fuel h0 a1 first r.
Proof.
  intros Harr H0 H1 Hposts Hfirst Hfuel.
  destruct (Children (Data posts)) as [|first' rest] eqn:Hch; [done|].
  simpl in Hfirst. simplify_eq.
  by eapply RequestPostJSON_run.
Qed.

Lemma RequestPostJSON_takes_first_child_witness :
  decodeJSON_arrays ex_two_posts = json.POk ex_two_posts_arrays
  /\ ex_two_posts_arrays !! 0 = Some (default "" (ex_two_posts_arrays !! 0))
  /\ ex_two_posts_arrays !! 1 = Some (default "" (ex_two_posts_arrays !! 1))
  /\ Unmarshal_postListing 0 (default "" (ex_two_posts_arrays !! 0))
     = json.POk (ex_two_posts_listing, [])
  /\ Children (Data ex_two_posts_listing) !! 0
     = Some (default (mkI2 zero_PostResponse) (Children (Data ex_two_posts_listing) !! 0))
  /\ String.length ex_two_posts < 200
  /\ exists h r, RequestPostJSON PerLoop 200 (inr ex_two_posts) = Returns (h, r)
       /\ assembled PerLoop 200 [] (default "" (ex_two_posts_arrays !! 1))
            (default (mkI2 zero_PostResponse) (Children (Data ex_two_posts_listing) !! 0)) r.
Proof.
  assert (Hlen : String.length ex_two_posts < 200).
  { apply Nat.ltb_lt. vm_compute. reflexivity. }
  split; [vm_compute; reflexivity|]. split; [reflexivity|]. split; [reflexivity|].
  split; [vm_compute; reflexivity|]. split; [reflexivity|]. split; [exact Hlen|].
  apply (RequestPostJSON_takes_first_child PerLoop 200 ex_two_posts ex_two_posts_arrays
           (default "" (ex_two_posts_arrays !! 0)) (default "" (ex_two_posts_arrays !! 1))
           ex_two_posts_listing []
           (default (mkI2 zero_PostResponse) (Children (Data ex_two_posts_listing) !! 0)));
    [vm_compute; reflexivity | reflexivity | reflexivity | vm_compute; reflexivity
    | reflexivity | exact Hlen].
Defined.

(** The order of the comments and the errors of the assembly. For a
    response that is an array of two elements whose element 0,
    when it decodes, holds one post, and with fuel beyond the length of the
    body, the call returns, and what it returns is: the error of element 0;
    else the error of element 1; else the error of the first top-level
    comment whose replies fail to decode, the comments before it having gone
    through; else the post, with one comment per child of element 1, in the
    order of element 1, each with the fields of its child and its replies
    decoded before it was appended. An error comes with no post, a post
    with no error. *)
Theorem RequestPostJSON_post_or_first_error lv fuel body a0 a1 :
  decodeJSON_arrays body = json.POk [a0; a1] ->
  (forall posts h0, Unmarshal_postListing 0 a0 = json.POk (posts, h0) ->
                    length (Children (Data posts)) = 1) ->
  String.length body < fuel ->
  exists h r, RequestPostJSON lv fuel (inr body) = Returns (h, r) /\
    match Unmarshal_postListing 0 a0 with
    | json.PFuel => False
    | json.PErr e0 => r = (None, Some e0)
    | json.POk (posts, h0) =>
        exists first, Children (Data posts) = [first] /\ assembled lv fuel h0 a1 first r
    end.
Proof.
  intros Harr Hone Hfuel.
  destruct (Unmarshal_postListing 0 a0) as [[posts h0]|e0|] eqn:Hposts.
  - specialize (Hone posts h0 eq_refl).
    destruct (Children (Data posts)) as [|first [|second rest]] eqn:Hch; simplify_eq.
    destruct (RequestPostJSON_run lv fuel body [a0; a1] a0 a1 posts h0 first [])
      as (h & r & Hr & Has); auto.
    exists h, r. split; [done|]. by exists first.
  - exists [], (None, Some e0). split; [|done].
    unfold RequestPostJSON. rewrite Harr. simpl. by rewrite Hposts.
  - by apply Unmarshal_Listing_fuel in Hposts.
Qed.

Lemma RequestPostJSON_post_or_first_error_witness :
  decodeJSON_arrays ex_response
    = json.POk [default "" (ex_response_arrays !! 0); default "" (ex_response_arrays !! 1)]
  /\ (forall posts h0,
        Unmarshal_postListing 0 (default "" (ex_response_arrays !! 0)) = json.POk (posts, h0) ->
        length (Children (Data posts)) = 1)
  /\ String.length ex_response < 400
  /\ exists h r, RequestPostJSON PerLoop 400 (inr ex_response) = Returns (h, r) /\
       match Unmarshal_postListing 0 (default "" (ex_response_arrays !! 0)) with
       | json.PFuel => False
       | json.PErr e0 => r = (None, Some e0)
       | json.POk (posts, h0) =>
           exists first, Children (Data posts) = [first]
                         /\ assembled PerLoop 400 h0 (default "" (ex_response_arrays !! 1)) first r
       end.
Proof.
  assert (Hlen : String.length ex_response < 400).
  { apply Nat.ltb_lt. vm_compute. reflexivity. }
  assert (Hone : forall posts h0,
            Unmarshal_postListing 0 (default "" (ex_response_arrays !! 0)) = json.POk (posts, h0) ->
            length (Children (Data posts)) = 1).
  { intros posts h0 H. vm_compute in H. injection H as <- <-. reflexivity. }
  split; [vm_compute; reflexivity|]. split; [exact Hone|]. split; [exact Hlen|].
  apply (RequestPostJSON_post_or_first_error PerLoop 400 ex_response
           (default "" (ex_response_arrays !! 0)) (default "" (ex_response_arrays !! 1)));
    [vm_compute; reflexivity | exact Hone | exact Hlen].
Defined.

(** C9. A well-formed response of two elements: one post, and the
    top-level comments X and Y, of which X carries the nested listing of
    the replies A and B. The call returns a post and no error, with X and Y
    attached in the order of element 1 and their buffers released; but the
    subtree of X is not the one that the response holds: its [Replies] is
    one pointer twice, the address of the range variable of
    [DecodeReplies], and the record there reads B. *)
Theorem RequestPostJSON_subtree_repeats_the_last :
  decodeJSON_arrays ex_nested_response = json.POk ex_nested_arrays
  /\ length ex_nested_arrays = 2
  /\ String.length ex_nested_response < 400
  /\ Unmarshal_commentListing 0 (default "" (ex_nested_arrays !! 1))
     = json.POk (ex_nested_listing, [])
  /\ map (fun ch => Body (Data2 ch)) (Children (Data ex_nested_listing))
     = [Some (VString "X"); Some (VString "Y")]
  /\ map (fun ch => RepliesListing (Data2 ch)) (Children (Data ex_nested_listing))
     = [ex_replies; empty_string_literal]
  /\ Unmarshal_commentListing 1 ex_replies = json.POk (ex_listing, [])
  /\ map (fun ch => Body (Data2 ch)) (Children (Data ex_listing))
     = [Some (VString "A"); Some (VString "B")]
  /\ RequestPostJSON PerLoop 400 (inr ex_nested_response)
     = Returns (ex_nested_heap, (Some ex_nested_post, None))
  /\ map Body (post_Replies ex_nested_post) = [Some (VString "X"); Some (VString "Y")]
  /\ map RepliesListing (post_Replies ex_nested_post) = [""; ""]
  /\ exists x, post_Replies ex_nested_post !! 0 = Some x
       /\ length (Replies x) = length (Children (Data ex_listing))
       /\ Replies x = [Some 1; Some 1]
       /\ map (fun o => o ≫= Body) (deref ex_nested_heap (Replies x))
          = [Some (VString "B"); Some (VString "B")].
Proof.
  split; [vm_compute; reflexivity|]. split; [reflexivity|].
  split; [apply Nat.ltb_lt; vm_compute; reflexivity|].
  split; [vm_compute; reflexivity|]. split; [vm_compute; reflexivity|].
  split; [vm_compute; reflexivity|]. split; [vm_compute; reflexivity|].
  split; [vm_compute; reflexivity|]. split; [vm_compute; reflexivity|].
  split; [vm_compute; reflexivity|]. split; [vm_compute; reflexivity|].
  eexists. split; [vm_compute; reflexivity|].
  split; [vm_compute; reflexivity|]. split; vm_compute; reflexivity.
Qed.

(** With a variable per iteration (Go 1.22) the same response yields the
    subtree that it holds: the replies of X are two records, A and B in
    this order. *)
Remark RequestPostJSON_subtree_go_1_22 :
  exists h post x,
    RequestPostJSON PerIteration 400 (inr ex_nested_response) = Returns (h, (Some post, None))
    /\ post_Replies post !! 0 = Some x
    /\ Replies x = [Some 1; Some 2]
    /\ map (fun o => o ≫= Body) (deref h (Replies x))
       = [Some (VString "A"); Some (VString "B")].
Proof.
  eexists _, _, _. split; [vm_compute; reflexivity|].
  split; [vm_compute; reflexivity|]. split; vm_compute; reflexivity.
Qed.

(** * More on DecodeReplies *)

Lemma range_Children_mono lv (decode decode' : list CommentResponse -> nat -> outcome (list CommentResponse * option error)) :
  (forall h p r, decode h p = Returns r -> decode' h p = Returns r) ->
  forall children p var h r,
    range_Children lv decode p var children h = Returns r ->
    range_Children lv decode' p var children h = Returns r.
Proof.
  intros Hd. induction children as [|child rest IH]; intros p var h r H; simpl in *; [done|].
  destruct (range_var lv var h) as [h1 comment].
  destruct (decode _ comment) as [[h2 e2]| |] eqn:Hdec; [|done|done].
  rewrite (Hd _ _ _ Hdec). destruct e2; [done|]. by apply IH.
Qed.

(** More fuel does not change what a call returns. *)
Lemma DecodeReplies_fuel_mono lv fuel :
  forall (h : list CommentResponse) p r,
    DecodeReplies lv fuel h p = Returns r ->
    forall fuel', fuel <= fuel' -> DecodeReplies lv fuel' h p = Returns r.
Proof.
  induction fuel as [|fuel IH]; intros h p r H fuel' Hle; [done|].
  destruct fuel' as [|fuel']; [lia|]. simpl in *.
  destruct (h !! p) as [pc|]; [|done].
  destruct (String.eqb _ _); [done|].
  destruct (Unmarshal_commentListing _ _) as [[listing fresh]|err|]; [|done|done].
  destruct (range_Children lv (DecodeReplies lv fuel) _ _ _ _) as [[h1 e1]| |] eqn:Hr; [|done|done].
  eapply (range_Children_mono _ _ (DecodeReplies lv fuel')) in Hr.
  - by rewrite Hr.
  - intros h0 p0 r0 H0. eapply IH; [exact H0|lia].
Qed.

(** X1. A call of DecodeReplies returns, and returns the same heap and
    error, with every amount of fuel beyond the length of the buffer of the
    comment: the recursion ends on every input. *)
Theorem DecodeReplies_terminates lv (h : list CommentResponse) p c :
  h !! p = Some c ->
  exists h' e, forall fuel,
    String.length (RepliesListing c) < fuel ->
    DecodeReplies lv fuel h p = Returns (h', e).
Proof.
  intros Hc.
  destruct (DecodeReplies_returns lv (S (String.length (RepliesListing c))) h p c Hc)
    as (h' & e & H); [lia|].
  exists h', e. intros fuel Hf. eapply DecodeReplies_fuel_mono; [exact H|lia].
Qed.

Lemma DecodeReplies_terminates_witness :
  [ex_parent] !! 0 = Some ex_parent
  /\ exists h' e, forall fuel,
       String.length (RepliesListing ex_parent) < fuel ->
       DecodeReplies PerLoop fuel [ex_parent] 0 = Returns (h', e).
Proof.
  split; [reflexivity|].
  apply (DecodeReplies_terminates PerLoop [ex_parent] 0 ex_parent). reflexivity.
Defined.

(** X2. A call of DecodeReplies on the record at [p] never shortens the
    heap, leaves every other record that was there before the call as it
    was, and keeps the scalar fields of the record at [p]; its [Replies]
    only grow at the end. *)
Theorem DecodeReplies_frame lv fuel (h : list CommentResponse) p h' e :
  DecodeReplies lv fuel h p = Returns (h', e) ->
  length h <= length h'
  /\ (forall a, a < length h -> a <> p -> h' !! a = h !! a)
  /\ exists c c' new, h !! p = Some c /\ h' !! p = Some c'
       /\ scalars c' = scalars c /\ Replies c' = (Replies c ++ new)%list.
Proof.
  intros H.
  apply DecodeReplies_spec in H
    as (c & c' & Hc & Hc' & Hlen & Hother & Hsc & _ & _ & new & Hnew).
  split; [done|]. split; [done|]. by exists c, c', new.
Qed.

Lemma DecodeReplies_frame_witness :
  DecodeReplies PerLoop 3 [ex_parent; ex_leaf] 0 = Returns (ex_framed, None)
  /\ (length [ex_parent; ex_leaf] <= length ex_framed
      /\ (forall a, a < length [ex_parent; ex_leaf] -> a <> 0 ->
            ex_framed !! a = [ex_parent; ex_leaf] !! a)
      /\ exists c c' new, [ex_parent; ex_leaf] !! 0 = Some c /\ ex_framed !! 0 = Some c'
           /\ scalars c' = scalars c /\ Replies c' = (Replies c ++ new)%list).
Proof.
  split; [vm_compute; reflexivity|].
  apply (DecodeReplies_frame PerLoop 3 [ex_parent; ex_leaf] 0 ex_framed None).
  vm_compute. reflexivity.
Defined.

Lemma DecodeReplies_PerLoop_one_address_witness :
  [ex_parent] !! 0 = Some ex_parent
  /\ DecodeReplies PerLoop 3 [ex_parent] 0 = Returns (ex_decoded, None)
  /\ exists c' q k, ex_decoded !! 0 = Some c'
       /\ Replies c' = (Replies ex_parent ++ replicate k (Some q))%list.
Proof.
  split; [reflexivity|]. split; [vm_compute; reflexivity|].
  apply (DecodeReplies_PerLoop_one_address 3 [ex_parent] 0 ex_parent ex_decoded None);
    [reflexivity | vm_compute; reflexivity].
Defined.

Lemma DecodeReplies_child_count_witness :
  [ex_parent] !! 0 = Some ex_parent
  /\ RepliesListing ex_parent <> empty_string_literal
  /\ Unmarshal_commentListing (length [ex_parent]) (RepliesListing ex_parent)
     = json.POk (ex_listing, [])
  /\ DecodeReplies PerIteration 3 [ex_parent] 0 = Returns (ex_decoded_1_22, None)
  /\ exists c', ex_decoded_1_22 !! 0 = Some c'
       /\ length (Replies c') = length (Replies ex_parent) + length (Children (Data ex_listing)).
Proof.
  assert (Hne : RepliesListing ex_parent <> empty_string_literal).
  { intros H. apply (f_equal String.length) in H. vm_compute in H. discriminate H. }
  split; [reflexivity|]. split; [exact Hne|].
  split; [vm_compute; reflexivity|]. split; [vm_compute; reflexivity|].
  apply (DecodeReplies_child_count PerIteration 3 [ex_parent] 0 ex_parent ex_decoded_1_22
           ex_listing []);
    [reflexivity | exact Hne | vm_compute; reflexivity | vm_compute; reflexivity].
Defined.

Lemma range_Children_failure lv decode :
  call_spec decode ->
  forall children n0 p var (h : list CommentResponse) h' err c,
    p < n0 -> n0 <= length h -> h !! p = Some c ->
    (forall a, var = Some a -> n0 <= a < length h) ->
    range_Children lv decode p var children h = Returns (h', Some err) ->
    exists c' new, h' !! p = Some c' /\ Replies c' = (Replies c ++ new)%list
                   /\ 1 <= length new <= length children.
Proof.
  intros Hdec. induction children as [|child rest IH]; intros n0 p var h h' err c Hp Hn Hc Hvar H.
  - simpl in H. simplify_eq.
  - simpl in H.
    destruct (range_var lv var h) as [h1 comment] eqn:Hrv.
    apply (range_var_spec _ _ _ n0) in Hrv as (Hcm & Hlen1 & Hsame1 & _); [|done|done].
    set (h3 := alter (append_Replies (Some comment)) p (<[comment := Data2 child]> h1)) in *.
    assert (Hlen3 : length h3 = length h1).
    { unfold h3. by rewrite length_alter, length_insert. }
    assert (Hp3 : h3 !! p = Some (append_Replies (Some comment) c)).
    { unfold h3. rewrite list_lookup_alter_eq.
      rewrite list_lookup_insert_ne by lia. rewrite Hsame1 by lia. by rewrite Hc. }
    destruct (decode h3 comment) as [[h4 e4]| |] eqn:Hd; [|done|done].
    apply Hdec in Hd as (cc & cc' & Hcc & Hcc' & Hlen4 & Hother4 & _).
    assert (Hp4 : h4 !! p = Some (append_Replies (Some comment) c)).
    { rewrite Hother4; [done| lia | lia]. }
    destruct e4 as [err4|].
    + simplify_eq. exists (append_Replies (Some comment) c), [Some comment].
      simpl. split; [done|]. split; [done|]. lia.
    + eapply (IH n0) in H as (c' & new & Hc' & Hnew & Hk);
        [|done|lia|exact Hp4|intros a ?; simplify_eq; lia].
      exists c', (Some comment :: new). split; [done|]. simpl in *.
      rewrite Hnew, <- app_assoc. split; [done|]. lia.
Qed.

(** X5. A call that fails while it decodes the children does not take back
    what it has appended: the [Replies] of the comment then hold at least one
    new pointer and at most one for every child of the nested listing. *)
Theorem DecodeReplies_failure_keeps_partial_children lv fuel (h : list CommentResponse)
    p c h' err listing fresh :
  h !! p = Some c ->
  Unmarshal_commentListing (length h) (RepliesListing c) = json.POk (listing, fresh) ->
  DecodeReplies lv fuel h p = Returns (h', Some err) ->
  exists c' new, h' !! p = Some c' /\ Replies c' = (Replies c ++ new)%list
                 /\ 1 <= length new <= length (Children (Data listing)).
Proof.
  intros Hc Hu H. destruct fuel as [|fuel]; [done|]. simpl in H. rewrite Hc, Hu in H.
  assert (Hp : p < length h) by (apply lookup_lt_is_Some; eauto).
  destruct (String.eqb _ _); [done|].
  destruct (range_Children _ _ _ _ _ _) as [[h1 e1]| |] eqn:Hr; [|done|done].
  destruct e1 as [err1|]; simplify_eq.
  eapply (range_Children_failure _ _ (DecodeReplies_spec lv fuel) _ (length h)) in Hr;
    [exact Hr|done|rewrite length_app; lia|by rewrite lookup_app_l|done].
Qed.

Lemma DecodeReplies_failure_keeps_partial_children_witness :
  [ex_failing] !! 0 = Some ex_failing
  /\ Unmarshal_commentListing (length [ex_failing]) (RepliesListing ex_failing)
     = json.POk (ex_failing_listing, [])
  /\ DecodeReplies PerLoop 3 [ex_failing] 0 = Returns (ex_failed, Some (SyntaxError UnexpectedEnd))
  /\ exists c' new, ex_failed !! 0 = Some c' /\ Replies c' = (Replies ex_failing ++ new)%list
       /\ 1 <= length new <= length (Children (Data ex_failing_listing)).
Proof.
  split; [reflexivity|]. split; [vm_compute; reflexivity|]. split; [vm_compute; reflexivity|].
  apply (DecodeReplies_failure_keeps_partial_children PerLoop 3 [ex_failing] 0 ex_failing
           ex_failed (SyntaxError UnexpectedEnd) ex_failing_listing []);
    [reflexivity | vm_compute; reflexivity | vm_compute; reflexivity].
Defined.

(** * More on RequestPostJSON *)

(** X6. When element 0 decodes to a listing without children, whether its
    [children] is an empty array or the key is missing, the call does not
    return an error: it panics on the index 0 of the empty slice. *)
Theorem RequestPostJSON_panics_without_post lv fuel body arrays a0 posts
    (h0 : list CommentResponse) :
  decodeJSON_arrays body = json.POk arrays ->
  arrays !! 0 = Some a0 ->
  Unmarshal_postListing 0 a0 = json.POk (posts, h0) ->
  Children (Data posts) = [] ->
  RequestPostJSON lv fuel (inr body) = Panics "index out of range [0] with length 0".
Proof.
  intros Harr H0 Hposts Hch. unfold RequestPostJSON.
  rewrite Harr, H0, Hposts, Hch. reflexivity.
Qed.

Lemma RequestPostJSON_panics_without_post_witness :
  decodeJSON_arrays ex_no_post
    = json.POk [json_text "{'data':{'children':[]}}"; json_text "{'data':{'children':[]}}"]
  /\ [json_text "{'data':{'children':[]}}"; json_text "{'data':{'children':[]}}"] !! 0
     = Some (json_text "{'data':{'children':[]}}")
  /\ Unmarshal_postListing 0 (json_text "{'data':{'children':[]}}") = json.POk (zero_Listing, [])
  /\ Children (Data (@zero_Listing PostResponse)) = []
  /\ RequestPostJSON PerLoop 0 (inr ex_no_post) = Panics "index out of range [0] with length 0".
Proof.
  split; [vm_compute; reflexivity|]. split; [reflexivity|].
  split; [vm_compute; reflexivity|]. split; [reflexivity|].
  apply (RequestPostJSON_panics_without_post PerLoop 0 ex_no_post
           [json_text "{'data':{'children':[]}}"; json_text "{'data':{'children':[]}}"]
           (json_text "{'data':{'children':[]}}") zero_Listing []);
    [vm_compute; reflexivity | reflexivity | vm_compute; reflexivity | reflexivity].
Defined.

(** X7. A body whose top-level array has fewer than two elements never gives
    a post: the call panics on a missing element or on a missing child, or
    returns the error of element 0. *)
Theorem RequestPostJSON_needs_two_elements lv fuel body arrays :
  decodeJSON_arrays body = json.POk arrays ->
  length arrays < 2 ->
  (exists msg, RequestPostJSON lv fuel (inr body) = Panics msg)
  \/ (exists h err, RequestPostJSON lv fuel (inr body) = Returns (h, (None, Some err))).
Proof.
  intros Harr Hlen. unfold RequestPostJSON. rewrite Harr.
  destruct arrays as [|a0 [|a1 rest]]; simpl in *; [left; eauto| |lia].
  destruct (Unmarshal_postListing 0 a0) as [[posts h0]|e0|] eqn:Hposts.
  - destruct (Children (Data posts) !! 0); left; eauto.
  - right. eauto.
  - by apply Unmarshal_Listing_fuel in Hposts.
Qed.

Lemma RequestPostJSON_needs_two_elements_witness :
  decodeJSON_arrays ex_one_element
    = json.POk [json_text "{'data':{'children':[{'data':{'id':'p1'}}]}}"]
  /\ length [json_text "{'data':{'children':[{'data':{'id':'p1'}}]}}"] < 2
  /\ ((exists msg, RequestPostJSON PerLoop 9 (inr ex_one_element) = Panics msg)
      \/ (exists h err,
            RequestPostJSON PerLoop 9 (inr ex_one_element) = Returns (h, (None, Some err)))).
Proof.
  split; [vm_compute; reflexivity|]. split; [simpl; lia|].
  apply (RequestPostJSON_needs_two_elements PerLoop 9 ex_one_element
           [json_text "{'data':{'children':[{'data':{'id':'p1'}}]}}"]);
    [vm_compute; reflexivity | simpl; lia].
Defined.

(** X8. When element 1 decodes to a listing without children the call
    returns the first post of element 0 with an empty [Replies] and no
    error, with any amount of fuel; what the post itself carried under
    [replies] is replaced. *)
Theorem RequestPostJSON_without_comments lv fuel body arrays a0 a1 posts
    (h0 : list CommentResponse) first cl fresh :
  decodeJSON_arrays body = json.POk arrays ->
  arrays !! 0 = Some a0 ->
  arrays !! 1 = Some a1 ->
  Unmarshal_postListing 0 a0 = json.POk (posts, h0) ->
  Children (Data posts) !! 0 = Some first ->
  Unmarshal_commentListing (length h0) a1 = json.POk (cl, fresh) ->
  Children (Data cl) = [] ->
  RequestPostJSON lv fuel (inr body)
    = Returns ((h0 ++ fresh)%list, (Some (mkPost (post_scalars (Data2 first)) []), None)).
Proof.
  intros Harr H0 H1 Hposts Hfirst Hcl Hch. unfold RequestPostJSON.
  rewrite Harr, H0, Hposts, Hfirst, H1, Hcl, Hch. reflexivity.
Qed.

Lemma RequestPostJSON_without_comments_witness :
  decodeJSON_arrays ex_no_comments
    = json.POk [json_text "{'data':{'children':[{'data':{'id':'p1'}}]}}";
                json_text "{'data':{'children':[]}}"]
  /\ [json_text "{'data':{'children':[{'data':{'id':'p1'}}]}}";
      json_text "{'data':{'children':[]}}"] !! 0
     = Some (json_text "{'data':{'children':[{'data':{'id':'p1'}}]}}")
  /\ [json_text "{'data':{'children':[{'data':{'id':'p1'}}]}}";
      json_text "{'data':{'children':[]}}"] !! 1
     = Some (json_text "{'data':{'children':[]}}")
  /\ Unmarshal_postListing 0 (json_text "{'data':{'children':[{'data':{'id':'p1'}}]}}")
     = json.POk (mkListing (mkI1 [ex_no_comments_post]), [])
  /\ Children (Data (mkListing (mkI1 [ex_no_comments_post]))) !! 0 = Some ex_no_comments_post
  /\ Unmarshal_commentListing (length (@nil CommentResponse)) (json_text "{'data':{'children':[]}}")
     = json.POk (zero_Listing, [])
  /\ Children (Data (@zero_Listing CommentResponse)) = []
  /\ RequestPostJSON PerLoop 0 (inr ex_no_comments)
     = Returns (([] ++ [])%list, (Some (mkPost (post_scalars (Data2 ex_no_comments_post)) []), None)).
Proof.
  split; [vm_compute; reflexivity|]. split; [reflexivity|]. split; [reflexivity|].
  split; [vm_compute; reflexivity|]. split; [reflexivity|].
  split; [vm_compute; reflexivity|]. split; [reflexivity|].
  apply (RequestPostJSON_without_comments PerLoop 0 ex_no_comments
           [json_text "{'data':{'children':[{'data':{'id':'p1'}}]}}";
            json_text "{'data':{'children':[]}}"]
           (json_text "{'data':{'children':[{'data':{'id':'p1'}}]}}")
           (json_text "{'data':{'children':[]}}")
           (mkListing (mkI1 [ex_no_comments_post])) [] ex_no_comments_post zero_Listing []);
    [vm_compute; reflexivity | reflexivity | reflexivity | vm_compute; reflexivity
    | reflexivity | vm_compute; reflexivity | reflexivity].
Defined.

(** * More on FloatTime.UnmarshalJSON *)

Lemma ParseFloat_error s e :
  strconv.ParseFloat s = inr e -> exists k, e = strconv.mkNumError "ParseFloat" s k.
Proof.
  unfold strconv.ParseFloat, strconv.syntaxError, strconv.rangeError. intros H.
  repeat (case_match; simplify_eq); eauto.
Qed.

(** X9. The codec fails exactly when neither [strconv.ParseBool] nor
    [strconv.ParseFloat] reads the bytes; the error then names the bytes it
    was given, and the receiver keeps its value. *)
Theorem UnmarshalJSON_error_iff ft data :
  (snd (UnmarshalJSON ft data) = None
   <-> (exists b, strconv.ParseBool data = inl b) \/ (exists f, strconv.ParseFloat data = inl f))
  /\ (forall err, snd (UnmarshalJSON ft data) = Some err ->
        fst (UnmarshalJSON ft data) = ft
        /\ exists k, err = FailedToParseFloat (strconv.mkNumError "ParseFloat" data k)).
Proof.
  unfold UnmarshalJSON.
  destruct (strconv.ParseBool data) as [b|eb] eqn:Hb.
  { simpl. split; [|done]. split; eauto. }
  destruct (strconv.ParseFloat data) as [f|ef] eqn:Hf; simpl.
  { split; [|done]. split; eauto. }
  split.
  - split; [done|]. intros [[b Hb']|[f Hf']]; done.
  - intros err Herr. simplify_eq. split; [done|].
    apply ParseFloat_error in Hf as [k ->]. eauto.
Qed.

Lemma scalar_start_false c :
  scalar_start c = false ->
  is_digit c = false
  /\ Forall (fun x => Ascii.eqb c x = false)
       ["+"; "-"; "."; "_"; "i"; "I"; "n"; "N"; "t"; "T"; "f"; "F"; "0"; "1"]%char.
Proof.
  unfold scalar_start. intros H.
  apply orb_false_elim in H as [Hd H]. split; [done|].
  simpl in H. repeat (apply orb_false_elim in H as [? H]).
  repeat (constructor; [done|]).
  constructor; [|constructor; [|constructor]].
  - destruct (Ascii.eqb_spec c "0"%char) as [->|]; [|done]. discriminate Hd.
  - destruct (Ascii.eqb_spec c "1"%char) as [->|]; [|done]. discriminate Hd.
Qed.

(** X10. Bytes that begin with anything but a digit, a sign, a point, an
    underscore or one of the letters t, f, i, n are refused: a timestamp sent
    as a JSON string, object or array, or with a space in front, is an
    error, and the receiver keeps its value. *)
Theorem UnmarshalJSON_refuses_other_values ft c rest :
  scalar_start c = false ->
  UnmarshalJSON ft (String c rest)
    = (ft, Some (FailedToParseFloat (strconv.syntaxError "ParseFloat" (String c rest)))).
Proof.
  intros H. apply scalar_start_false in H as [Hd H].
  repeat match goal with
         | H : Forall _ (_ :: _) |- _ => apply Forall_cons in H as [? H]
         end.
  assert (Hb : strconv.ParseBool (String c rest) = inr (strconv.syntaxError "ParseBool" (String c rest))).
  { unfold strconv.ParseBool, strconv.mem_string. simpl.
    repeat match goal with H : Ascii.eqb c _ = false |- _ => rewrite H; clear H end.
    reflexivity. }
  assert (Hf : strconv.ParseFloat (String c rest)
               = inr (strconv.syntaxError "ParseFloat" (String c rest))).
  { unfold strconv.ParseFloat, strconv.special, strconv.readFloat, strconv.strip_sign.
    repeat match goal with H : Ascii.eqb c _ = false |- _ => rewrite H end.
    simpl.
    assert (Hm : forall st,
               strconv.read_mantissa false (String c rest) st = (st, String c rest)).
    { intros st. simpl.
      repeat match goal with H : Ascii.eqb c _ = false |- _ => rewrite H end.
      by rewrite Hd. }
    destruct rest as [|c1 [|c2 t]];
      repeat match goal with H : Ascii.eqb c _ = false |- _ => rewrite H end;
      simpl; rewrite ?Hm; simpl; try reflexivity;
      rewrite ?Hd; simpl;
      repeat match goal with H : Ascii.eqb c _ = false |- _ => rewrite H end;
      simpl; rewrite ?Hd; reflexivity. }
  unfold UnmarshalJSON. by rewrite Hb, Hf.
Qed.

Lemma UnmarshalJSON_refuses_other_values_witness :
  scalar_start dquote = false
  /\ UnmarshalJSON time.zero (String dquote "2021-06-01")
     = (time.zero,
        Some (FailedToParseFloat (strconv.syntaxError "ParseFloat" (String dquote "2021-06-01")))).
Proof.
  split; [reflexivity|].
  apply (UnmarshalJSON_refuses_other_values time.zero dquote "2021-06-01"). reflexivity.
Defined.

(** * Integer timestamps *)

Section IntegerTimestamps.
Local Open Scope Z_scope.

Lemma digits2_pos_size p : digits2_pos p = Pos.size p.
Proof. induction p as [p IH|p IH|]; simpl; by rewrite ?IH. Qed.

Lemma Zdigits2_log2 p : Zdigits2 (Z.pos p) = Z.log2 (Z.pos p) + 1.
Proof.
  simpl. rewrite digits2_pos_size.
  destruct p as [p|p|]; simpl; try reflexivity; by rewrite Pos2Z.inj_succ.
Qed.

Lemma shr_12 p e :
  shr (Build_shr_record (Z.pos (4096 * p)) false false) e 12
  = (Build_shr_record (Z.pos p) false false, e + 12).
Proof. reflexivity. Qed.

(** An integer below 2^53 is a binary64 number: rounding returns it. *)
Lemma round_ratio_integer (neg : bool) n :
  0 < n < 2 ^ 53 ->
  strconv.round_ratio neg n 1
  = S754_finite neg (Z.to_pos (n * 2 ^ (52 - Z.log2 n))) (Z.log2 n - 52).
Proof.
  intros Hn.
  assert (Hk : 0 <= Z.log2 n < 53).
  { split; [apply Z.log2_nonneg|]. apply Z.log2_lt_pow2; lia. }
  unfold strconv.round_ratio. change (Z.log2 1) with 0.
  set (k := Z.log2 n) in *.
  replace (Z.max 0 (64 + 0 + 1 - (k + 1))) with (64 - k) by lia.
  rewrite Z.div_1_r, Z.mod_1_r. simpl (if _ =? _ then _ else _).
  set (m := n * 2 ^ (52 - k)).
  assert (Hm : 0 < m) by (unfold m; apply Z.mul_pos_pos; [lia|apply Z.pow_pos_nonneg; lia]).
  assert (Hq : n * 2 ^ (64 - k) = Z.pos (4096 * Z.to_pos m)).
  { rewrite Pos2Z.inj_mul, Z2Pos.id by done. unfold m.
    replace (64 - k) with (52 - k + 12) by lia. rewrite Z.pow_add_r by lia. lia. }
  assert (Hlm : Z.log2 m = 52).
  { unfold m. rewrite Z.log2_mul_pow2 by lia. fold k. lia. }
  rewrite Hq. unfold binary_round_aux, shr_fexp.
  rewrite Zdigits2_log2. rewrite <- Hq.
  rewrite Z.log2_mul_pow2 by lia. fold k. rewrite Hq.
  unfold fexp, emin.
  replace (Z.max (64 - k + k + 1 + - (64 - k) - 53) (3 - 1024 - 53) - - (64 - k)) with 12 by lia.
  simpl shr_record_of_loc. rewrite shr_12.
  simpl shr_m. simpl loc_of_shr_record. simpl round_nearest_even.
  rewrite Zdigits2_log2. rewrite Z2Pos.id by done. rewrite Hlm.
  replace (Z.max (52 + 1 + (- (64 - k) + 12) - 53) (3 - 1024 - 53) - (- (64 - k) + 12)) with 0 by lia.
  simpl. 
  replace (- (64 - k) + 12) with (k - 52) by lia.
  destruct (k - 52 <=? 1024 - 53) eqn:Hle; [|apply Z.leb_gt in Hle; lia].
  clearbody m. destruct m; [lia|reflexivity|lia].
Qed.

Lemma int64_of_float64_integer (neg : bool) n :
  0 < n < 2 ^ 53 ->
  int64_of_float64 (S754_finite neg (Z.to_pos (n * 2 ^ (52 - Z.log2 n))) (Z.log2 n - 52))
  = if neg then - n else n.
Proof.
  intros Hn.
  assert (Hk : 0 <= Z.log2 n < 53).
  { split; [apply Z.log2_nonneg|]. apply Z.log2_lt_pow2; lia. }
  set (k := Z.log2 n) in *.
  assert (Hp : 0 < 2 ^ (52 - k)) by (apply Z.pow_pos_nonneg; lia).
  unfold int64_of_float64. rewrite Z2Pos.id by (apply Z.mul_pos_pos; lia).
  assert (Hmag : (if 0 <=? k - 52
                  then n * 2 ^ (52 - k) * 2 ^ (k - 52)
                  else n * 2 ^ (52 - k) / 2 ^ (- (k - 52))) = n).
  { destruct (0 <=? k - 52) eqn:He.
    - apply Z.leb_le in He. replace k with 52 by lia. simpl. lia.
    - replace (- (k - 52)) with (52 - k) by lia. apply Z.div_mul. lia. }
  rewrite Hmag.
  assert (H63 : 2 ^ 53 < 2 ^ 63) by (apply Z.pow_lt_mono_r; lia).
  set (v := if neg then - n else n).
  assert (Hr : (min_int64 <=? v) && (v <=? max_int64) = true).
  { apply andb_true_intro. unfold min_int64, max_int64, v.
    split; apply Z.leb_le; destruct neg; lia. }
  by rewrite Hr.
Qed.


Lemma digit_facts c :
  is_digit c = true ->
  Forall (fun x => Ascii.eqb c x = false) ["+"; "-"; "i"; "I"; "n"; "N"; "_"; "."]%char
  /\ Ascii.eqb (strconv.lower c) "x" = false
  /\ 0 <= digit_val c <= 9.
Proof.
  destruct c as [[] [] [] [] [] [] [] []]; intros H; vm_compute in H; try discriminate H;
    (split; [repeat constructor|split; [reflexivity|vm_compute; split; discriminate]]).
Qed.

Lemma digit_not_i c : is_digit c = true -> Ascii.eqb (strconv.to_lower_AZ c) "i" = false.
Proof.
  destruct c as [[] [] [] [] [] [] [] []]; intros H; vm_compute in H; try discriminate H;
    reflexivity.
Qed.

Lemma read_uint_cons c rest acc n :
  strconv.read_uint (String c rest) acc = Some n ->
  is_digit c = true /\ strconv.read_uint rest (acc * 10 + digit_val c) = Some n.
Proof. simpl. by destruct (is_digit c). Qed.

Lemma read_uint_lower_bound s : forall acc n,
  0 <= acc -> strconv.read_uint s acc = Some n -> acc <= n.
Proof.
  induction s as [|c s IH]; intros acc n Hacc H.
  - simpl in H. simplify_eq. lia.
  - apply read_uint_cons in H as [Hd H].
    apply digit_facts in Hd as (_ & _ & Hv).
    apply IH in H; lia.
Qed.

(** The mantissa loop on a string of digits reads the number they spell. *)
Lemma read_mantissa_digits s : forall acc sd n,
  strconv.read_uint s acc = Some n ->
  strconv.read_mantissa false s (strconv.mkMant acc false sd 0 false)
  = (strconv.mkMant n false (match s with EmptyString => sd | _ => true end) 0 false,
     EmptyString).
Proof.
  induction s as [|c s IH]; intros acc sd n H.
  - simpl in *. by simplify_eq.
  - apply read_uint_cons in H as [Hd H].
    pose proof (digit_facts c Hd) as (Hne & _ & _).
    repeat match goal with
           | H : Forall _ (_ :: _) |- _ => apply Forall_cons in H as [? H]
           end.
    cbn [strconv.read_mantissa]. simpl strconv.m_val. simpl strconv.m_sawdot.
    simpl strconv.m_frac. simpl strconv.m_underscores. simpl strconv.m_sawdigits.
    repeat match goal with H : Ascii.eqb c _ = false |- _ => rewrite H; clear H end.
    rewrite Hd. cbn iota. rewrite (IH _ true n H). by destruct s.
Qed.

(** [readFloat] on an optional minus sign and a string of digits. *)
Lemma readFloat_digits (neg : bool) c rest n :
  strconv.read_uint (String c rest) 0 = Some n ->
  strconv.readFloat (if neg then String "-" (String c rest) else String c rest)
  = Some (strconv.mkParsed neg n false 0 EmptyString false).
Proof.
  intros H. pose proof H as H'.
  apply read_uint_cons in H' as [Hd Hrest].
  pose proof (digit_facts c Hd) as (Hne & _ & _).
  repeat match goal with
         | H : Forall _ (_ :: _) |- _ => apply Forall_cons in H as [? H]
         end.
  assert (Hstrip : strconv.strip_sign (if neg then String "-" (String c rest) else String c rest)
                   = (neg, String c rest)).
  { destruct neg; [reflexivity|]. simpl.
    repeat match goal with H : Ascii.eqb c _ = false |- _ => rewrite H end. reflexivity. }
  assert (Hhex : (match String c rest with
                  | String c0 (String c1 (String c2 t)) =>
                      if Ascii.eqb c0 "0" && Ascii.eqb (strconv.lower c1) "x"
                      then (true, String c2 t) else (false, String c rest)
                  | _ => (false, String c rest)
                  end) = (false, String c rest)).
  { destruct rest as [|c1 [|c2 t]]; try reflexivity.
    apply read_uint_cons in Hrest as [Hd1 _].
    apply digit_facts in Hd1 as (_ & Hx & _). rewrite Hx.
    by rewrite andb_false_r. }
  unfold strconv.readFloat.
  destruct neg; cbn iota; rewrite Hstrip, Hhex;
    rewrite (read_mantissa_digits _ _ false n H); reflexivity.
Qed.


Lemma ParseFloat_integer (neg : bool) c rest n :
  strconv.read_uint (String c rest) 0 = Some n ->
  0 < n < 2 ^ 53 ->
  strconv.ParseFloat (signed neg (String c rest))
  = inl (S754_finite neg (Z.to_pos (n * 2 ^ (52 - Z.log2 n))) (Z.log2 n - 52)).
Proof.
  intros H Hn. pose proof H as H'.
  apply read_uint_cons in H' as [Hd _].
  pose proof (digit_facts c Hd) as (Hne & _ & _).
  pose proof (digit_not_i c Hd) as Hi.
  repeat match goal with
         | H : Forall _ (_ :: _) |- _ => apply Forall_cons in H as [? H]
         end.
  assert (Hsp : strconv.special (signed neg (String c rest)) = None).
  { destruct neg; simpl.
    - by rewrite Hi.
    - repeat match goal with H : Ascii.eqb c _ = false |- _ => rewrite H end. reflexivity. }
  unfold strconv.ParseFloat. rewrite Hsp.
  unfold signed. rewrite (readFloat_digits neg c rest n H).
  cbn [strconv.pf_rest strconv.pf_underscores strconv.pf_neg strconv.pf_mant
       strconv.pf_hex strconv.pf_exp andb].
  unfold strconv.nearest_float64.
  destruct (n =? 0) eqn:Hz; [apply Z.eqb_eq in Hz; lia|].
  change (Z.max 0 0) with 0. change (Z.max 0 (- 0)) with 0.
  change (10 ^ 0) with 1. rewrite Z.mul_1_r.
  by rewrite round_ratio_integer.
Qed.

Lemma ParseBool_integer (neg : bool) c rest n :
  strconv.read_uint (String c rest) 0 = Some n ->
  (neg = false -> 2 <= n) ->
  exists e, strconv.ParseBool (signed neg (String c rest)) = inr e.
Proof.
  intros H Hn. destruct neg; [eexists; reflexivity|].
  specialize (Hn eq_refl). unfold signed, strconv.ParseBool.
  assert (Hmem : forall l, Forall (fun x => forall m, strconv.read_uint x 0 = Some m -> m < 2) l ->
                   strconv.mem_string (String c rest) l = false).
  { intros l Hl. destruct (strconv.mem_string (String c rest) l) eqn:Hm; [|done].
    unfold strconv.mem_string in Hm. apply existsb_exists in Hm as (x & Hin & Heq).
    apply String.eqb_eq in Heq. subst x.
    apply List.Forall_forall with (x := String c rest) in Hl; [|done].
    specialize (Hl n H). lia. }
  rewrite !Hmem; [eexists; reflexivity| |];
    repeat (constructor; [intros m Hm; vm_compute in Hm; simplify_eq; lia|]); constructor.
Qed.

(** A string of digits with an optional minus sign, spelling a number
    below 2^53 that is neither of the texts 0 and 1, decodes to that Unix
    second. *)
Lemma UnmarshalJSON_digits ft (neg : bool) c rest n :
  strconv.read_uint (String c rest) 0 = Some n ->
  0 < n < 2 ^ 53 ->
  (neg = false -> 2 <= n) ->
  UnmarshalJSON ft (signed neg (String c rest)) = (time.Unix (if neg then - n else n), None).
Proof.
  intros H Hn H2. unfold UnmarshalJSON.
  destruct (ParseBool_integer neg c rest n H H2) as [e ->].
  rewrite (ParseFloat_integer neg c rest n H Hn).
  by rewrite int64_of_float64_integer.
Qed.

Lemma read_uint_of_uint_acc d : forall acc,
  strconv.read_uint (NilEmpty.string_of_uint d) (Z.pos acc)
  = Some (Z.pos (Pos.of_uint_acc d acc)).
Proof.
  induction d; intros acc; simpl; try reflexivity;
    match goal with
    | |- context [digit_val ?c] =>
        let v := eval vm_compute in (digit_val c) in change (digit_val c) with v
    end;
    match goal with
    | |- strconv.read_uint _ ?a = Some (Z.pos (Pos.of_uint_acc _ ?b)) =>
        replace a with (Z.pos b) by lia
    end; apply IHd.
Qed.

Lemma read_uint_of_uint d :
  strconv.read_uint (NilEmpty.string_of_uint d) 0 = Some (Z.of_N (Pos.of_uint d)).
Proof.
  induction d; simpl; try reflexivity; try exact IHd;
    match goal with
    | |- strconv.read_uint _ ?a = Some (Z.pos (Pos.of_uint_acc _ ?b)) =>
        change a with (Z.pos b)
    end; apply read_uint_of_uint_acc.
Qed.

Lemma format_int_digits p :
  exists c rest,
    NilEmpty.string_of_uint (Pos.to_uint p) = String c rest
    /\ strconv.read_uint (String c rest) 0 = Some (Z.pos p)
    /\ format_int (Z.pos p) = signed false (String c rest)
    /\ format_int (Z.neg p) = signed true (String c rest).
Proof.
  pose proof (read_uint_of_uint (Pos.to_uint p)) as H.
  rewrite DecimalPos.Unsigned.of_to in H. simpl in H.
  pose proof (DecimalPos.Unsigned.to_uint_nonnil p) as Hnil.
  unfold format_int. simpl Z.to_int. unfold NilZero.string_of_int, NilZero.string_of_uint.
  destruct (Pos.to_uint p) eqn:Hd; [done| | | | | | | | | |];
    simpl in *; eexists _, _; repeat split; try reflexivity; exact H.
Qed.
End IntegerTimestamps.

(** X11. The decimal text of every integer between -2^53 and 2^53, the
    texts 0 and 1 apart, decodes to that Unix second without an error,
    whatever the receiver held. *)
Theorem UnmarshalJSON_integer_text ft (z : Z) :
  (- 2 ^ 53 < z < 2 ^ 53)%Z ->
  z <> 0%Z -> z <> 1%Z ->
  UnmarshalJSON ft (format_int z) = (time.Unix z, None).
Proof.
  intros Hz H0 H1. destruct z as [|p|p]; [done| |].
  - destruct (format_int_digits p) as (c & rest & _ & Hread & -> & _).
    apply (UnmarshalJSON_digits ft false c rest (Z.pos p) Hread); lia.
  - destruct (format_int_digits p) as (c & rest & _ & Hread & _ & ->).
    apply (UnmarshalJSON_digits ft true c rest (Z.pos p) Hread); [lia|done].
Qed.

Lemma UnmarshalJSON_integer_text_witness :
  (- 2 ^ 53 < 1622548800 < 2 ^ 53)%Z
  /\ 1622548800%Z <> 0%Z /\ 1622548800%Z <> 1%Z
  /\ UnmarshalJSON time.zero (format_int 1622548800) = (time.Unix 1622548800, None).
Proof.
  assert (H : (- 2 ^ 53 < 1622548800 < 2 ^ 53)%Z) by (vm_compute; split; reflexivity).
  split; [exact H|]. split; [discriminate|]. split; [discriminate|].
  apply (UnmarshalJSON_integer_text time.zero 1622548800 H); discriminate.
Defined.

(** * The path of RequestPostJSON *)

Lemma rev_replicate {A} n (x : A) : rev (replicate n x) = replicate n x.
Proof.
  induction n as [|n IH]; [done|].
  simpl. rewrite IH. symmetry. apply (replicate_S_end n x).
Qed.

Lemma append_cons x a b : (String x a ++ b)%string = String x (a ++ b).
Proof. reflexivity. Qed.

Lemma list_ascii_of_string_app a b :
  list_ascii_of_string (a ++ b) = (list_ascii_of_string a ++ list_ascii_of_string b)%list.
Proof.
  induction a as [|c a IH]; [done|].
  rewrite append_cons. cbn [list_ascii_of_string app]. by rewrite IH.
Qed.

Lemma string_of_list_ascii_app a b :
  string_of_list_ascii (a ++ b)%list = (string_of_list_ascii a ++ string_of_list_ascii b)%string.
Proof.
  induction a as [|c a IH]; [done|].
  cbn [string_of_list_ascii app]. by rewrite append_cons, IH.
Qed.

Lemma string_app_assoc a b c : ((a ++ b) ++ c)%string = (a ++ (b ++ c))%string.
Proof. induction a as [|x a IH]; [done|]. by rewrite !append_cons, IH. Qed.

Lemma string_app_length a b :
  String.length (a ++ b) = String.length a + String.length b.
Proof.
  induction a as [|x a IH]; [done|].
  rewrite append_cons. cbn [String.length]. by rewrite IH.
Qed.

Lemma trim_slashes_replicate k :
  trim_slashes (replicate k "/"%char) = Panics "index out of range [-1]".
Proof. induction k as [|k IH]; [done|]. exact IH. Qed.

Lemma trim_slashes_app k c t :
  c <> "/"%char ->
  trim_slashes (replicate k "/"%char ++ c :: t)%list = Returns (c :: t).
Proof.
  intros Hc. induction k as [|k IH]; simpl.
  - by destruct (Ascii.eqb_spec c "/"%char).
  - exact IH.
Qed.

Lemma trim_slashes_panics r msg :
  trim_slashes r = Panics msg -> r = replicate (length r) "/"%char.
Proof.
  induction r as [|c r IH]; simpl; [done|].
  destruct (Ascii.eqb_spec c "/"%char) as [->|]; [|done].
  intros H. by rewrite <- (IH H).
Qed.

(** X12. The path of the request: the trailing slashes of a path that has
    another byte in it are removed, however many there are, and [.json] is
    appended to what is left. *)
Theorem post_json_path_trims stem c k :
  c <> "/"%char ->
  post_json_path (stem ++ String c (slashes k)) = Returns (stem ++ String c ".json").
Proof.
  intros Hc. unfold post_json_path, slashes.
  rewrite list_ascii_of_string_app. cbn [list_ascii_of_string].
  rewrite list_ascii_of_string_of_list_ascii, rev_app_distr.
  cbn [rev]. rewrite rev_replicate, <- app_assoc. cbn [app].
  rewrite (trim_slashes_app k c _ Hc).
  cbn [rev]. rewrite rev_involutive, string_of_list_ascii_app,
    string_of_list_ascii_of_string, string_app_assoc.
  reflexivity.
Qed.

Lemma post_json_path_trims_witness :
  "t"%char <> "/"%char
  /\ post_json_path ("/r/golang/comments/abc/pos" ++ String "t" (slashes 2))
     = Returns ("/r/golang/comments/abc/pos" ++ String "t" ".json").
Proof.
  assert (H : "t"%char <> "/"%char) by discriminate.
  split; [exact H|]. apply (post_json_path_trims _ "t" 2 H).
Defined.

(** X13. The loop over the trailing slashes reads [path[len(path)-1]]
    without a test of the length: the call panics exactly on the paths
    that hold nothing but slashes, the empty path among them. *)
Theorem post_json_path_panics path :
  (exists msg, post_json_path path = Panics msg) <-> (exists k, path = slashes k).
Proof.
  unfold post_json_path, slashes. split.
  - intros [msg H].
    destruct (trim_slashes (rev (list_ascii_of_string path))) as [r|m|] eqn:Ht; [done| |done].
    apply trim_slashes_panics in Ht.
    exists (length (rev (list_ascii_of_string path))).
    rewrite <- (string_of_list_ascii_of_string path) at 1.
    rewrite <- (rev_involutive (list_ascii_of_string path)) at 1.
    rewrite Ht at 1. by rewrite rev_replicate.
  - intros [k ->].
    rewrite list_ascii_of_string_of_list_ascii, rev_replicate, trim_slashes_replicate.
    eauto.
Qed.

(** * Sorting comments by score *)

Lemma index_Some {A} (a : list A) i x :
  slice_index a i = Some x <-> (0 <= i)%Z /\ a !! Z.to_nat i = Some x.
Proof.
  unfold slice_index. destruct (Z.ltb_spec i 0); split.
  - done.
  - intros [? _]. lia.
  - intros H'. by split; [lia|].
  - intros [_ H']. exact H'.
Qed.

Lemma index_in_range {A} (a : list A) i :
  is_Some (slice_index a i) <-> (0 <= i < Z.of_nat (length a))%Z.
Proof.
  unfold slice_index. destruct (Z.ltb_spec i 0).
  - split; [by intros [? ?]|lia].
  - rewrite lookup_lt_is_Some. lia.
Qed.

(** X14. [Swap] exchanges the two elements and nothing else: the slice
    after the call is a permutation of the slice before it, of the same
    length, with the elements at [i] and [j] exchanged and every other
    index as it was, and a second [Swap] of the same indices restores the
    slice. *)
Theorem Swap_exchanges a i j a' :
  CommentsByScore.Swap a i j = Returns a' ->
  a' ≡ₚ a
  /\ CommentsByScore.Len a' = CommentsByScore.Len a
  /\ slice_index a' i = slice_index a j
  /\ slice_index a' j = slice_index a i
  /\ (forall k, k <> i -> k <> j -> slice_index a' k = slice_index a k)
  /\ CommentsByScore.Swap a' i j = Returns a
  /\ CommentsByScoreDescending.Swap a i j = Returns a'.
Proof.
  unfold CommentsByScoreDescending.Swap, CommentsByScore.Swap, CommentsByScore.Len.
  destruct (slice_index a i) as [x|] eqn:Hi; [|done].
  destruct (slice_index a j) as [y|] eqn:Hj; [|done].
  intros H. injection H as <-.
  apply index_Some in Hi as [Hi0 Hi]. apply index_Some in Hj as [Hj0 Hj].
  pose proof (lookup_lt_Some _ _ _ Hi) as Li.
  pose proof (lookup_lt_Some _ _ _ Hj) as Lj.
  set (I := Z.to_nat i) in *. set (J := Z.to_nat j) in *.
  assert (HI : <[J:=x]> (<[I:=y]> a) !! I = Some y).
  { destruct (decide (I = J)) as [e|ne].
    - rewrite <- e in *. rewrite list_lookup_insert_eq by (rewrite length_insert; lia).
      congruence.
    - rewrite list_lookup_insert_ne by done. by rewrite list_lookup_insert_eq. }
  assert (HJ : <[J:=x]> (<[I:=y]> a) !! J = Some x).
  { by rewrite list_lookup_insert_eq by (rewrite length_insert; lia). }
  split; [by apply Permutation_insert_swap|].
  split; [by rewrite !length_insert|].
  split; [unfold slice_index; destruct (Z.ltb_spec i 0); [lia|]; destruct (Z.ltb_spec j 0); [lia|];
          fold I J; congruence|].
  split; [unfold slice_index; destruct (Z.ltb_spec i 0); [lia|]; destruct (Z.ltb_spec j 0); [lia|];
          fold I J; congruence|].
  split.
  { intros k Hki Hkj. unfold slice_index. destruct (Z.ltb_spec k 0); [done|].
    rewrite !list_lookup_insert_ne by (subst I J; lia). done. }
  split; [|done].
  unfold slice_index. destruct (Z.ltb_spec i 0); [lia|]. destruct (Z.ltb_spec j 0); [lia|].
  fold I J. rewrite HI, HJ. f_equal.
  apply list_eq. intros n.
  destruct (decide (n = J)) as [->|nJ].
  { rewrite list_lookup_insert_eq by (rewrite !length_insert; lia). done. }
  rewrite list_lookup_insert_ne by done.
  destruct (decide (n = I)) as [->|nI].
  { rewrite list_lookup_insert_eq by (rewrite !length_insert; lia). done. }
  by rewrite !list_lookup_insert_ne by done.
Qed.

Lemma Swap_exchanges_witness :
  CommentsByScore.Swap [ex_parent; ex_leaf] 0 1 = Returns [ex_leaf; ex_parent]
  /\ [ex_leaf; ex_parent] ≡ₚ [ex_parent; ex_leaf]
  /\ slice_index [ex_leaf; ex_parent] 0%Z = slice_index [ex_parent; ex_leaf] 1%Z.
Proof.
  assert (H : CommentsByScore.Swap [ex_parent; ex_leaf] 0 1 = Returns [ex_leaf; ex_parent])
    by reflexivity.
  split; [exact H|].
  destruct (Swap_exchanges _ _ _ _ H) as (Hp & _ & H0 & _).
  split; [exact Hp|exact H0].
Defined.

(** X15. The methods index the slice without a test: [Swap] and [Less]
    return when both indices are inside the slice, and panic when one of
    them is negative or not below [Len]. *)
Theorem Swap_Less_in_range a i j :
  let inside := ((0 <= i < CommentsByScore.Len a) /\ (0 <= j < CommentsByScore.Len a))%Z in
  (inside ->
     (exists a', CommentsByScore.Swap a i j = Returns a')
     /\ (exists b, CommentsByScore.Less a i j = Returns b)
     /\ (exists b, CommentsByScoreDescending.Less a i j = Returns b))
  /\ (~ inside ->
     (exists msg, CommentsByScore.Swap a i j = Panics msg)
     /\ (exists msg, CommentsByScore.Less a i j = Panics msg)
     /\ (exists msg, CommentsByScoreDescending.Less a i j = Panics msg)).
Proof.
  intros inside. subst inside.
  unfold CommentsByScore.Swap, CommentsByScore.Less, CommentsByScoreDescending.Less,
    CommentsByScore.Len.
  pose proof (index_in_range a i) as Hi. pose proof (index_in_range a j) as Hj.
  destruct (slice_index a i) as [x|], (slice_index a j) as [y|]; split.
  all: try (intros _; repeat split; eexists; reflexivity).
  all: try (intros [H1 H2];
            first [apply Hi in H1 as [? ?]; done | apply Hj in H2 as [? ?]; done]).
  intros Hn. exfalso. apply Hn. split; [apply Hi|apply Hj]; eauto.
Qed.

(** X16. [Less] of [CommentsByScore] is a strict weak order on the
    indices, as [sort] needs it: irreflexive, asymmetric, transitive, and
    with a transitive incomparability; [Less] of
    [CommentsByScoreDescending] is its converse. *)
Theorem Less_strict_weak_order a :
  (forall i, CommentsByScore.Less a i i <> Returns true)
  /\ (forall i j, CommentsByScore.Less a i j = Returns true ->
                  CommentsByScore.Less a j i = Returns false)
  /\ (forall i j k, CommentsByScore.Less a i j = Returns true ->
                    CommentsByScore.Less a j k = Returns true ->
                    CommentsByScore.Less a i k = Returns true)
  /\ (forall i j k, CommentsByScore.Less a i j = Returns false ->
                    CommentsByScore.Less a j k = Returns false ->
                    CommentsByScore.Less a i k = Returns false)
  /\ (forall i j, CommentsByScoreDescending.Less a i j = CommentsByScore.Less a j i).
Proof.
  unfold CommentsByScore.Less, CommentsByScoreDescending.Less.
  repeat split.
  - intros i. destruct (slice_index a i); [|done].
    rewrite Z.ltb_irrefl. done.
  - intros i j. destruct (slice_index a i), (slice_index a j); try done.
    intros H. injection H as H. f_equal. lia.
  - intros i j k. destruct (slice_index a i), (slice_index a j), (slice_index a k); try done.
    intros H1 H2. injection H1 as H1. injection H2 as H2. f_equal. lia.
  - intros i j k. destruct (slice_index a i), (slice_index a j), (slice_index a k); try done.
    intros H1 H2. injection H1 as H1. injection H2 as H2. f_equal. lia.
  - intros i j. destruct (slice_index a i), (slice_index a j); try done.
    by rewrite Z.gtb_ltb.
Qed.

(** * The error hook *)

Lemma substring_0_length n : forall s,
  String.length (String.substring 0 n s) = Nat.min n (String.length s).
Proof.
  induction n as [|n IH]; intros [|c s]; cbn [String.substring String.length]; try done.
  by rewrite IH.
Qed.

Lemma substring_0_app s t :
  String.substring 0 (String.length s) (s ++ t) = s.
Proof.
  induction s as [|c s IH].
  - by destruct t.
  - rewrite append_cons. cbn [String.length String.substring]. by rewrite IH.
Qed.

Lemma substring_0_idem n s :
  n <= String.length s ->
  String.substring 0 n (String.substring 0 n s ++ "...") = String.substring 0 n s.
Proof.
  intros Hn.
  pose proof (substring_0_length n s) as Hl. rewrite Nat.min_l in Hl by done.
  rewrite <- Hl at 1. apply substring_0_app.
Qed.

(** X17. The subject of the message is never longer than the maximum and
    the three dots. A subject within the maximum is sent whole; a longer
    one is sent as its first 40 bytes and three dots, 43 bytes in all. *)
Theorem Fire_subject_bounded hook l message :
  let subject := (level_name l ++ " in " ++ BotName hook ++ ": " ++ message)%string in
  String.length (Fire_subject hook l message) <= logMessageMaxSubjectLength + 3
  /\ (String.length subject <= logMessageMaxSubjectLength ->
        Fire_subject hook l message = subject)
  /\ (logMessageMaxSubjectLength < String.length subject ->
        String.length (Fire_subject hook l message) = logMessageMaxSubjectLength + 3
        /\ prefix_bytes logMessageMaxSubjectLength (Fire_subject hook l message)
           = prefix_bytes logMessageMaxSubjectLength subject
        /\ Fire_subject hook l message
           = (prefix_bytes logMessageMaxSubjectLength subject ++ "...")%string).
Proof.
  intros subject. unfold Fire_subject. fold subject.
  generalize logMessageMaxSubjectLength as n. intros n. unfold prefix_bytes.
  destruct (Nat.ltb_spec n (String.length subject)) as [Hlt|Hle].
  - assert (Hlen : String.length (String.substring 0 n subject ++ "...") = n + 3).
    { rewrite string_app_length, substring_0_length, Nat.min_l by lia. done. }
    split; [lia|]. split; [lia|]. intros _.
    split; [done|]. split; [|done]. apply substring_0_idem. lia.
  - split; [lia|]. split; [done|lia].
Qed.

Lemma prefix_bytes_3_app u :
  prefix_bytes 3 ("/u/" ++ u) = "/u/".
Proof. apply (substring_0_app "/u/" u). Qed.

Lemma Fire_username_spec u u' :
  Fire_username u = Returns u' ->
  3 <= String.length u
  /\ (prefix_bytes 3 u' = "/u/" \/ prefix_bytes 3 u' = "/r/")
  /\ (u' = u \/ u' = ("/u/" ++ u)%string)
  /\ Fire_username u' = Returns u'.
Proof.
  unfold Fire_username.
  destruct (Nat.ltb_spec (String.length u) 3) as [|Hlen]; [done|].
  destruct (String.eqb_spec (prefix_bytes 3 u) "/u/") as [Hu|Hu];
    destruct (String.eqb_spec (prefix_bytes 3 u) "/r/") as [Hr|Hr];
    cbn [negb andb]; intros H; injection H as <-.
  4: { rewrite prefix_bytes_3_app.
       split; [done|]. split; [by left|]. split; [by right|].
       replace (String.length ("/u/" ++ u) <? 3) with false; [done|].
       symmetry. apply Nat.ltb_ge. rewrite string_app_length. cbn. lia. }
  all: split; [done|]; split; [by auto|]; split; [by left|].
  all: destruct (Nat.ltb_spec (String.length u) 3); [lia|].
  all: try rewrite Hu; try rewrite Hr; done.
Qed.

(** X18. [Fire] puts [/u/] in front of an addressee that begins with
    neither [/u/] nor [/r/] and stores it in the hook. After a call that
    returned, the addressee begins with one of the two, the message went to
    that addressee under the subject of the entry, the other fields of the
    hook are as they were, and a second call on the same entry leaves the
    hook as it is. *)
Theorem Fire_addressee send hook l message text hook' e :
  Fire send hook l message text = Returns (hook', e) ->
  (prefix_bytes 3 (Username hook') = "/u/" \/ prefix_bytes 3 (Username hook') = "/r/")
  /\ (Username hook' = Username hook \/ Username hook' = ("/u/" ++ Username hook)%string)
  /\ e = send (Username hook') (Fire_subject hook l message) text
  /\ BotName hook' = BotName hook
  /\ TimeFormat hook' = TimeFormat hook
  /\ Levels hook' = Levels hook
  /\ Fire send hook' l message text = Returns (hook', e).
Proof.
  unfold Fire. destruct (Fire_username (Username hook)) as [u| |] eqn:Hu; [|done|done].
  intros H. injection H as <- <-. cbn [Username BotName TimeFormat levels Levels].
  apply Fire_username_spec in Hu as (_ & Hp & Hc & Hs).
  rewrite Hs. by repeat split.
Qed.

Lemma Fire_addressee_witness :
  Fire (fun _ _ _ => None) ex_hook ErrorLevel "boom" "text"
    = Returns (mkHook "/u/someone" "mybot" defaultLogMessageTimeFormat [], None)
  /\ Fire (fun _ _ _ => None)
       (mkHook "/u/someone" "mybot" defaultLogMessageTimeFormat []) ErrorLevel "boom" "text"
     = Returns (mkHook "/u/someone" "mybot" defaultLogMessageTimeFormat [], None).
Proof.
  assert (H : Fire (fun _ _ _ => None) ex_hook ErrorLevel "boom" "text"
              = Returns (mkHook "/u/someone" "mybot" defaultLogMessageTimeFormat [], None))
    by reflexivity.
  split; [exact H|].
  exact (proj2 (proj2 (proj2 (proj2 (proj2 (proj2
    (Fire_addressee _ _ _ _ _ _ _ H))))))).
Defined.

(** X19. [Fire] slices the first three bytes of the addressee without a
    test of its length: the call panics, before anything is sent, exactly
    when the addressee has fewer than three bytes. *)
Theorem Fire_panics_on_short_username send hook l message text :
  (exists msg, Fire send hook l message text = Panics msg)
  <-> String.length (Username hook) < 3.
Proof.
  unfold Fire, Fire_username.
  destruct (Nat.ltb_spec (String.length (Username hook)) 3) as [Hlt|Hge].
  - split; [done|]. eauto.
  - split; [|lia]. intros [msg H]. by destruct (_ && _).
Qed.

Lemma copy_nil_src {A} (dst : list A) : copy dst [] = (dst, 0).
Proof. unfold copy. cbn [length]. by rewrite Nat.min_0_r. Qed.

(** X20. [SendErrors] calls [copy] with the default levels as the
    destination and the empty slice of the new hook as the source: nothing
    is copied. For every username but the empty one the call returns a hook
    whose [Levels] is empty, and the default levels are as they were. *)
Theorem SendErrors_copies_no_levels defaults username botName :
  username <> "" ->
  exists hook,
    SendErrors defaults username botName = (defaults, (Some hook, None))
    /\ Levels hook = []
    /\ Username hook = username
    /\ BotName hook = botName
    /\ TimeFormat hook = defaultLogMessageTimeFormat.
Proof.
  intros Hu. unfold SendErrors.
  destruct (String.eqb_spec username "") as [|_]; [done|].
  cbn [levels]. rewrite copy_nil_src. eexists. by repeat split.
Qed.

Lemma SendErrors_copies_no_levels_witness :
  "someone" <> ""
  /\ exists hook,
       SendErrors ex_default_levels "someone" "mybot" = (ex_default_levels, (Some hook, None))
       /\ Levels hook = []
       /\ Username hook = "someone"
       /\ BotName hook = "mybot"
       /\ TimeFormat hook = defaultLogMessageTimeFormat.
Proof.
  assert (H : "someone" <> "") by discriminate.
  split; [exact H|]. apply (SendErrors_copies_no_levels ex_default_levels "someone" "mybot" H).
Defined.

(** X21. [SendErrors] refuses the empty username only. A username of one
    or two bytes gets a hook, and every [Fire] of that hook panics. *)
Theorem SendErrors_short_username defaults username botName :
  username <> "" ->
  String.length username < 3 ->
  exists hook,
    SendErrors defaults username botName = (defaults, (Some hook, None))
    /\ forall send l message text,
         exists msg, Fire send hook l message text = Panics msg.
Proof.
  intros Hu Hlen. unfold SendErrors.
  destruct (String.eqb_spec username "") as [|_]; [done|].
  cbn [levels]. rewrite copy_nil_src. eexists. split; [reflexivity|].
  intros send l message text. unfold Fire, Fire_username. cbn [Username].
  destruct (Nat.ltb_spec (String.length username) 3); [eauto|lia].
Qed.

Lemma SendErrors_short_username_witness :
  "me" <> "" /\ String.length "me" < 3
  /\ exists hook,
       SendErrors ex_default_levels "me" "mybot" = (ex_default_levels, (Some hook, None))
       /\ forall send l message text,
            exists msg, Fire send hook l message text = Panics msg.
Proof.
  assert (H : "me" <> "") by discriminate.
  assert (H' : String.length "me" < 3) by (cbn; lia).
  split; [exact H|]. split; [exact H'|].
  apply (SendErrors_short_username ex_default_levels "me" "mybot" H H').
Defined.

(** * TokenExpiresIn *)

Lemma skip_digits_uint d : json.skip_digits (NilEmpty.string_of_uint d) = "".
Proof. induction d; cbn [NilEmpty.string_of_uint json.skip_digits]; try done. Qed.

Lemma unorm_D0 d d' : Decimal.unorm d = Decimal.D0 d' -> d' = Decimal.Nil.
Proof.
  induction d; cbn [Decimal.unorm]; intros H; try done; try by injection H as <-.
  auto.
Qed.

Lemma to_uint_unorm p : Decimal.unorm (Pos.to_uint p) = Pos.to_uint p.
Proof.
  pose proof (DecimalPos.Unsigned.to_of (Pos.to_uint p)) as H.
  rewrite DecimalPos.Unsigned.of_to in H. by symmetry.
Qed.

(** The decimal text of a positive number: a digit from 1 to 9, then digits. *)
Lemma to_uint_text p :
  exists c rest,
    NilEmpty.string_of_uint (Pos.to_uint p) = String c rest
    /\ in_range "1" "9" c = true
    /\ json.skip_digits rest = "".
Proof.
  pose proof (to_uint_unorm p) as Hn.
  pose proof (DecimalPos.Unsigned.to_uint_nonzero p) as Hz.
  pose proof (DecimalPos.Unsigned.to_uint_nonnil p) as Hnil.
  destruct (Pos.to_uint p) as [|d|d|d|d|d|d|d|d|d|d] eqn:Hd; [done| | | | | | | | | |].
  { apply unorm_D0 in Hn. subst d. done. }
  all: cbn [NilEmpty.string_of_uint]; eexists _, _; split; [reflexivity|];
    split; [reflexivity|apply skip_digits_uint].
Qed.

Lemma take_bytes_all s : json.take_bytes (String.length s) s = s.
Proof. induction s as [|c s IH]; [done|]. cbn [String.length json.take_bytes]. by rewrite IH. Qed.

Lemma consumed_all s : json.consumed s "" = s.
Proof.
  unfold json.consumed. cbn [String.length]. rewrite Nat.sub_0_r. apply take_bytes_all.
Qed.

(** The scanner on an optional minus sign, a digit from 1 to 9 and digits:
    one number, the whole of the input. *)
Lemma checkValid_integer (neg : bool) c rest :
  in_range "1" "9" c = true ->
  json.skip_digits rest = "" ->
  json.checkValid (signed neg (String c rest))
  = json.POk (signed neg (String c rest), json.Number (signed neg (String c rest))).
Proof.
  intros Hc Hrest.
  assert (Hscan : json.scan_number (signed neg (String c rest)) = inr "").
  { unfold json.scan_number.
    destruct neg; cbn [signed]; [replace (Ascii.eqb "-" "-") with true by reflexivity|].
    - destruct c as [[] [] [] [] [] [] [] []]; vm_compute in Hc; try discriminate Hc;
        cbn -[json.skip_digits json.scan_frac_exp]; by rewrite Hrest.
    - destruct c as [[] [] [] [] [] [] [] []]; vm_compute in Hc; try discriminate Hc;
        cbn -[json.skip_digits json.scan_frac_exp]; by rewrite Hrest. }
  set (s := signed neg (String c rest)) in *.
  assert (Hs : exists c0 r0, s = String c0 r0
                 /\ (Ascii.eqb c0 "-" || is_digit c0 = true)
                 /\ json.isSpace c0 = false
                 /\ Forall (fun x => Ascii.eqb c0 x = false) ["{"; "["; dquote]%char).
  { subst s. destruct neg; cbn [signed].
    - eexists _, _. split; [reflexivity|]. split; [reflexivity|]. split; [reflexivity|].
      repeat constructor.
    - eexists _, _. split; [reflexivity|].
      destruct c as [[] [] [] [] [] [] [] []]; vm_compute in Hc; try discriminate Hc;
        (split; [reflexivity|split; [reflexivity|repeat constructor]]). }
  destruct Hs as (c0 & r0 & Hs & Hd & Hsp & Hne).
  repeat match goal with
         | H : Forall _ (_ :: _) |- _ => apply Forall_cons in H as [? H]
         end.
  unfold json.checkValid, json.first_value.
  assert (Hskip : json.skip_space s = s).
  { rewrite Hs. cbn [json.skip_space]. by rewrite Hsp. }
  rewrite Hskip.
  assert (Hv : json.value (json.scan_fuel s) 0 s = json.POk (json.Number s, "")).
  { unfold json.scan_fuel. rewrite Hs at 1 2. cbn [String.length Nat.mul Nat.add].
    cbn [json.value].
    repeat match goal with H : Ascii.eqb c0 _ = false |- _ => rewrite H; clear H end.
    rewrite Hd. rewrite <- Hs, Hscan. cbn [json.lift_scan]. by rewrite consumed_all. }
  rewrite Hv. cbn [json.skip_space]. by rewrite consumed_all.
Qed.

Lemma ParseInt10_signed (neg : bool) c rest n :
  strconv.read_uint (String c rest) 0 = Some n ->
  (if neg then n <= 2 ^ 63 else n < 2 ^ 63)%Z ->
  strconv.ParseInt10 (signed neg (String c rest)) = inl (if neg then - n else n)%Z.
Proof.
  intros H Hn. pose proof (read_uint_cons _ _ _ _ H) as [Hd _].
  apply digit_facts in Hd as (Hne & _ & _).
  repeat match goal with
         | H : Forall _ (_ :: _) |- _ => apply Forall_cons in H as [? H]
         end.
  unfold strconv.ParseInt10. destruct neg; cbn [signed].
  - replace (Ascii.eqb "-" "+") with false by reflexivity.
    replace (Ascii.eqb "-" "-") with true by reflexivity.
    rewrite H. cbn [negb andb].
    destruct (Z.ltb_spec (2 ^ 63) n); [lia|done].
  - repeat match goal with H : Ascii.eqb c _ = false |- _ => rewrite H; clear H end.
    rewrite H. cbn [negb andb].
    destruct (Z.leb_spec (2 ^ 63) n); [lia|done].
Qed.

Lemma Unmarshal_int64_format old n :
  (min_int64 <= n <= max_int64)%Z ->
  Unmarshal_int64 old (format_int n) = json.POk n.
Proof.
  unfold min_int64, max_int64. intros Hn. destruct n as [|p|p].
  - reflexivity.
  - destruct (format_int_digits p) as (c & rest & Ht & Hread & -> & _).
    destruct (to_uint_text p) as (c' & rest' & Ht' & Hc & Hrest).
    rewrite Ht in Ht'. injection Ht' as <- <-.
    unfold Unmarshal_int64. rewrite (checkValid_integer false c rest Hc Hrest).
    cbn [decode_scalar].
    rewrite (ParseInt10_signed false c rest (Z.pos p) Hread) by (cbn beta iota; lia).
    reflexivity.
  - destruct (format_int_digits p) as (c & rest & Ht & Hread & _ & ->).
    destruct (to_uint_text p) as (c' & rest' & Ht' & Hc & Hrest).
    rewrite Ht in Ht'. injection Ht' as <- <-.
    unfold Unmarshal_int64. rewrite (checkValid_integer true c rest Hc Hrest).
    cbn [decode_scalar].
    rewrite (ParseInt10_signed true c rest (Z.pos p) Hread) by (cbn beta iota; lia).
    reflexivity.
Qed.

Lemma wrap64_small z : (min_int64 <= z <= max_int64)%Z -> wrap64 z = z.
Proof.
  unfold min_int64, max_int64, wrap64. intros H.
  rewrite Z.mod_small by lia. lia.
Qed.

Lemma wrap64_range z : (min_int64 <= wrap64 z <= max_int64)%Z.
Proof.
  unfold min_int64, max_int64, wrap64.
  pose proof (Z.mod_pos_bound (z + 2 ^ 63) (2 ^ 64) ltac:(lia)). lia.
Qed.

(** X22. [TokenExpiresIn] reads a count of seconds. On the decimal text
    of an [int64] the call prints the count on a line of its own and
    stores the count times [time.Second], an [int64] product: the exact
    number of nanoseconds for counts up to 9223372036 in absolute value,
    and a wrapped number, different from the true product, beyond. *)
Theorem TokenExpiresIn_seconds t n :
  (min_int64 <= n <= max_int64)%Z ->
  TokenExpiresIn_UnmarshalJSON t (format_int n)
    = Returns (wrap64 (n * time_Second), (format_int n ++ newline)%string, None)
  /\ ((-9223372036 <= n <= 9223372036)%Z -> wrap64 (n * time_Second) = (n * time_Second)%Z)
  /\ ((n < -9223372036 \/ 9223372036 < n)%Z -> wrap64 (n * time_Second) <> (n * time_Second)%Z).
Proof.
  intros Hn. unfold TokenExpiresIn_UnmarshalJSON.
  rewrite (Unmarshal_int64_format 0 n Hn). split; [done|].
  unfold time_Second. split.
  - intros Hs. apply wrap64_small. unfold min_int64, max_int64. lia.
  - intros Hs Heq. pose proof (wrap64_range (n * 1000000000)) as Hr.
    rewrite Heq in Hr. unfold min_int64, max_int64 in Hr. lia.
Qed.

Lemma TokenExpiresIn_seconds_witness :
  (min_int64 <= 3600 <= max_int64)%Z
  /\ TokenExpiresIn_UnmarshalJSON 0 (format_int 3600)
     = Returns (wrap64 (3600 * time_Second), (format_int 3600 ++ newline)%string, None).
Proof.
  assert (H : (min_int64 <= 3600 <= max_int64)%Z) by (vm_compute; split; discriminate).
  split; [exact H|]. exact (proj1 (TokenExpiresIn_seconds 0 3600 H)).
Defined.
